(** * The code-block enhancer of open-webui (assets/custom.js)

    The script walks the rendered document, collapses tall CodeMirror
    editors behind a fixed height and offers a toggle button.  It reacts to
    four browser event sources (history navigation, a ResizeObserver, a
    MutationObserver and a click listener) and defers the visual part of a
    toggle with requestAnimationFrame.

    The browser is modelled as follows.
    - The document is a tree of node identities; the properties the script
      reads or writes (nodeType, classList, id, style.height, scrollHeight)
      live in an object store keyed by identity, so that two references to
      the same element alias.
    - Nodes that were removed from the document but are still referenced
      (for instance by a mutation record) live in detached trees.
    - [scrollHeight] is what the layout engine measured last; the script
      only reads it, and a [Layout] event stands for a new measurement.
    - The WeakSet of initialized editors is a finite set of identities.
    - Calls into browser objects that leave no mark on the document
      (ResizeObserver.observe, MutationObserver.observe / disconnect,
      scrollIntoView) are recorded in a trace, newest call first.
    - requestAnimationFrame callbacks are closures; the queue holds their
      captured variables.
    - A listener that throws is modelled by a result type; the only throw
      the script can reach is the property access on a click target that
      has no [classList].
    - The URL changes with the script watching (the patched pushState,
      popstate) or behind its back ([ReplaceState]: history.replaceState,
      a hash change); the patched pushState may also fail in the original
      function, before the script's handler ([PushStateFails]). *)

From stdpp Require Import gmap strings list fin_maps pretty.

Abbreviation node_id := nat.

(** ** Document model *)

Module Dom.

(** The properties of one node.  [elem_id] is the [id] attribute,
    [style_height] the inline [style.height] (the empty string when unset). *)
Record node := Node {
  nodeType : nat;
  classList : list string;
  elem_id : string;
  style_height : string;
  scrollHeight : Z
}.

Definition ELEMENT_NODE : nat := 1.

Local Unset Elimination Schemes.
Inductive tree := T (n : node_id) (kids : list tree).
Local Set Elimination Schemes.

(** Induction over a tree with the hypothesis for every child. *)
Fixpoint tree_forall_ind (P : tree → Prop)
    (H : ∀ n ks, Forall P ks → P (T n ks)) (t : tree) : P t :=
  match t with
  | T n ks =>
      H n ks ((fix go l : Forall P l :=
                 match l with
                 | [] => List.Forall_nil P
                 | k :: l' =>
                     List.Forall_cons P k l' (tree_forall_ind P H k) (go l')
                 end) ks)
  end.

Definition root_id (t : tree) : node_id := match t with T n _ => n end.
Definition children (t : tree) : list tree := match t with T _ ks => ks end.

Record page := Page {
  document : tree;          (* rooted at the Document node *)
  detached : list tree;
  nodes : gmap nat node
}.

Definition forest (d : page) : list tree := document d :: detached d.

(** First hit of a partial search along a list. *)
Definition first_some {A B} (f : A → option B) : list A → option B :=
  fix go l :=
    match l with
    | [] => None
    | x :: l' => match f x with Some y => Some y | None => go l' end
    end.

(** Document order. *)
Fixpoint preorder (t : tree) : list node_id :=
  match t with T n ks => n :: (ks ≫= preorder) end.

Definition descendants (t : tree) : list node_id := children t ≫= preorder.

(** The subtree rooted at [r], if [r] occurs in [t]. *)
Fixpoint find_sub (r : node_id) (t : tree) : option tree :=
  match t with
  | T n ks => if decide (n = r) then Some t else first_some (find_sub r) ks
  end.

(** The chain [r; parent r; ...; root] when [r] occurs in [t]. *)
Fixpoint path_to (r : node_id) (t : tree) : option (list node_id) :=
  match t with
  | T n ks =>
      if decide (n = r) then Some [n]
      else match first_some (path_to r) ks with
           | Some p => Some (p ++ [n])
           | None => None
           end
  end.

(** [graft r b t]: a new leaf [b] becomes the last child of [r]. *)
Fixpoint graft (r b : node_id) (t : tree) : tree :=
  match t with
  | T n ks =>
      T n ((graft r b <$> ks) ++ (if decide (n = r) then [T b []] else []))
  end.

Definition lookup_sub (d : page) (r : node_id) : option tree :=
  first_some (find_sub r) (forest d).

Definition path (d : page) (r : node_id) : option (list node_id) :=
  first_some (path_to r) (forest d).

Definition child_ids (d : page) (r : node_id) : list node_id :=
  match lookup_sub d r with
  | Some t => root_id <$> children t
  | None => []
  end.

Definition is_element (d : page) (n : node_id) : bool :=
  match nodes d !! n with
  | Some p => nodeType p =? ELEMENT_NODE
  | None => false
  end.

(** A selector is a compound class selector: ".relative.my-2" is
    ["relative"; "my-2"].  Only elements match. *)
Definition selector := list string.

Definition has_classes (sel : selector) (p : node) : bool :=
  forallb (λ c, bool_decide (c ∈ classList p)) sel.

Definition matches (d : page) (sel : selector) (n : node_id) : bool :=
  match nodes d !! n with
  | Some p => (nodeType p =? ELEMENT_NODE) && has_classes sel p
  | None => false
  end.

(** [node.querySelectorAll(sel)]: matching descendants in document order. *)
Definition querySelectorAll (d : page) (sel : selector) (n : node_id)
  : list node_id :=
  match lookup_sub d n with
  | Some t => filter (λ x, matches d sel x) (descendants t)
  | None => []
  end.

Definition querySelector (d : page) (sel : selector) (n : node_id)
  : option node_id :=
  head (querySelectorAll d sel n).

(** [document.querySelectorAll(sel)]. *)
Definition document_querySelectorAll (d : page) (sel : selector)
  : list node_id :=
  filter (λ x, matches d sel x) (descendants (document d)).

Definition ancestors_or_self (d : page) (n : node_id) : list node_id :=
  default [n] (path d n).

(** [node.closest(sel)]: the node itself or its nearest matching ancestor. *)
Definition closest (d : page) (sel : selector) (n : node_id)
  : option node_id :=
  List.find (matches d sel) (ancestors_or_self d n).

Definition parentElement (d : page) (n : node_id) : option node_id :=
  match ancestors_or_self d n with
  | _ :: p :: _ => if is_element d p then Some p else None
  | _ => None
  end.

Definition get_id (d : page) (n : node_id) : string :=
  match nodes d !! n with Some p => elem_id p | None => "" end.

Definition get_height (d : page) (n : node_id) : string :=
  match nodes d !! n with Some p => style_height p | None => "" end.

Definition get_scrollHeight (d : page) (n : node_id) : Z :=
  match nodes d !! n with Some p => scrollHeight p | None => 0%Z end.

Definition with_id (v : string) (p : node) : node :=
  Node (nodeType p) (classList p) v (style_height p) (scrollHeight p).

Definition with_height (v : string) (p : node) : node :=
  Node (nodeType p) (classList p) (elem_id p) v (scrollHeight p).

Definition with_scrollHeight (h : Z) (p : node) : node :=
  Node (nodeType p) (classList p) (elem_id p) (style_height p) h.

Definition with_nodes (m : gmap nat node) (d : page) : page :=
  Page (document d) (detached d) m.

(** [n.id = v] and [n.style.height = v]. *)
Definition set_id (n : node_id) (v : string) (d : page) : page :=
  with_nodes (alter (with_id v) n (nodes d)) d.

Definition set_height (n : node_id) (v : string) (d : page) : page :=
  with_nodes (alter (with_height v) n (nodes d)) d.

(** The layout engine reporting a new content height. *)
Definition set_scrollHeight (n : node_id) (h : Z) (d : page) : page :=
  with_nodes (alter (with_scrollHeight h) n (nodes d)) d.

(** Every identity in use, in the store or in a tree. *)
Definition node_ids (d : page) : gset nat :=
  dom (nodes d) ∪ list_to_set (forest d ≫= preorder).

Definition fresh_id (d : page) : node_id := fresh (node_ids d).

(** [document.createElement] followed by [parent.appendChild]: the script
    appends only the element it has just created, so the two calls are one
    step.  The new element [p] gets a fresh identity and becomes the last
    child of [parent]. *)
Definition appendChild_new (parent : node_id) (p : node) (d : page) : page :=
  let b := fresh_id d in
  Page (graft parent b (document d))
       (graft parent b <$> detached d)
       (<[b := p]> (nodes d)).

(** The template literal [`${n}px`]. *)
Definition px (n : Z) : string := pretty n +:+ "px".

End Dom.

Import Dom.

(** ** The script *)

(** *** Configuration and state *)

Definition COLLAPSED_HEIGHT : Z := 400.
Definition EDIT_PAGE_IDENTIFIER : string := "/functions".

Definition CM_EDITOR : selector := ["cm-editor"].
Definition CODE_EXPAND_BTN : selector := ["code-expand-btn"].
Definition CM_SCROLLER : selector := ["cm-scroller"].
Definition MESSAGE_CONTAINER : selector := ["relative"; "my-2"].

(** Calls into browser objects, as recorded in the trace. *)
Inductive call :=
  | ResizeObserve (n : node_id)       (* resizeObserver.observe(n) *)
  | MutationObserve                   (* mutationObserver.observe(document.body, ..) *)
  | MutationDisconnect                (* mutationObserver.disconnect() *)
  | ScrollIntoView (n : node_id).     (* n.scrollIntoView(..) *)

Global Instance call_eq_dec : EqDecision call.
Proof. solve_decision. Defined.

(** The variables captured by the closure passed to requestAnimationFrame. *)
Record callback := Callback {
  cb_editorRoot : node_id;
  cb_button : node_id;
  cb_isCollapsed : bool
}.

Record state := State {
  href : string;                      (* window.location.href *)
  isCurrentlyEditPage : bool;
  mutationObserverActive : bool;
  observedCodeBlocks : gset nat;      (* the WeakSet, by identity *)
  doc : page;
  trace : list call;                  (* newest first *)
  frameQueue : list callback          (* oldest first *)
}.

Definition with_href (u : string) (s : state) : state :=
  State u (isCurrentlyEditPage s) (mutationObserverActive s)
        (observedCodeBlocks s) (doc s) (trace s) (frameQueue s).

Definition with_isCurrentlyEditPage (b : bool) (s : state) : state :=
  State (href s) b (mutationObserverActive s)
        (observedCodeBlocks s) (doc s) (trace s) (frameQueue s).

Definition with_mutationObserverActive (b : bool) (s : state) : state :=
  State (href s) (isCurrentlyEditPage s) b
        (observedCodeBlocks s) (doc s) (trace s) (frameQueue s).

Definition with_observedCodeBlocks (o : gset nat) (s : state) : state :=
  State (href s) (isCurrentlyEditPage s) (mutationObserverActive s)
        o (doc s) (trace s) (frameQueue s).

Definition with_doc (d : page) (s : state) : state :=
  State (href s) (isCurrentlyEditPage s) (mutationObserverActive s)
        (observedCodeBlocks s) d (trace s) (frameQueue s).

Definition with_trace (t : list call) (s : state) : state :=
  State (href s) (isCurrentlyEditPage s) (mutationObserverActive s)
        (observedCodeBlocks s) (doc s) t (frameQueue s).

Definition with_frameQueue (q : list callback) (s : state) : state :=
  State (href s) (isCurrentlyEditPage s) (mutationObserverActive s)
        (observedCodeBlocks s) (doc s) (trace s) q.

Definition emit (c : call) (s : state) : state := with_trace (c :: trace s) s.

(** [String.prototype.includes]. *)
Fixpoint includes (sub s : string) : bool :=
  String.prefix sub s ||
  match s with
  | EmptyString => false
  | String _ s' => includes sub s'
  end.

(** *** Core logic *)

Definition checkIsEditPage (s : state) : bool :=
  includes EDIT_PAGE_IDENTIFIER (href s).

(** The button element built by [updateCodeBlock]. *)
Definition expandBtn : node :=
  Node ELEMENT_NODE ["code-expand-btn"] "collapsed" "" 0.

Definition updateCodeBlock (editorRoot : node_id) (s : state) : state :=
  match querySelector (doc s) CODE_EXPAND_BTN editorRoot with
  | Some _ => s
  | None =>
      if (COLLAPSED_HEIGHT <? get_scrollHeight (doc s) editorRoot)%Z then
        with_doc
          (appendChild_new editorRoot expandBtn
             (set_height editorRoot (px COLLAPSED_HEIGHT)
                (set_id editorRoot "collapsed" (doc s)))) s
      else s
  end.

Definition initializeCodeBlock (editorRoot : node_id) (s : state) : state :=
  if bool_decide (editorRoot ∈ observedCodeBlocks s)
     || negb (matches (doc s) CM_EDITOR editorRoot)
  then s
  else
    updateCodeBlock editorRoot
      (emit (ResizeObserve editorRoot)
         (with_observedCodeBlocks ({[editorRoot]} ∪ observedCodeBlocks s) s)).

Definition forEach {A} (f : A → state → state) (l : list A) (s : state)
  : state :=
  fold_left (λ s x, f x s) l s.

Definition initializeAllCodeBlocks (s : state) : state :=
  if isCurrentlyEditPage s then s
  else forEach initializeCodeBlock
         (document_querySelectorAll (doc s) CM_EDITOR) s.

(** *** Observers *)

(** The ResizeObserver callback; an entry is represented by its target. *)
Definition resizeCallback (entries : list node_id) (s : state) : state :=
  if isCurrentlyEditPage s then s
  else forEach (λ editorRoot s,
                  if matches (doc s) CM_EDITOR editorRoot
                  then updateCodeBlock editorRoot s else s)
         entries s.

Record mutation := Mutation { addedNodes : list node_id }.

Definition addedNode (node : node_id) (s : state) : state :=
  if negb (is_element (doc s) node) then s
  else if matches (doc s) CM_EDITOR node then initializeCodeBlock node s
  else forEach initializeCodeBlock
         (querySelectorAll (doc s) CM_EDITOR node) s.

(** The MutationObserver callback. *)
Definition mutationCallback (mutations : list mutation) (s : state) : state :=
  if isCurrentlyEditPage s then s
  else forEach (λ m s, forEach addedNode (addedNodes m) s) mutations s.

Definition onRouteChange (s : state) : state :=
  let s := with_isCurrentlyEditPage (checkIsEditPage s) s in
  if isCurrentlyEditPage s then
    if mutationObserverActive s
    then with_mutationObserverActive false (emit MutationDisconnect s)
    else s
  else
    let s := initializeAllCodeBlocks s in
    if mutationObserverActive s then s
    else with_mutationObserverActive true (emit MutationObserve s).

(** *** Event listeners *)

Inductive result (A : Type) :=
  | Ok (a : A)
  | TypeError.
Arguments Ok {A} a.
Arguments TypeError {A}.

Definition result_map {A B} (f : A → B) (r : result A) : result B :=
  match r with
  | Ok a => Ok (f a)
  | TypeError => TypeError
  end.

(** The click listener.  [evt.target.classList] is undefined when the
    target is not an element, and calling [contains] on it throws. *)
Definition clickListener (target : node_id) (s : state) : result state :=
  if negb (is_element (doc s) target) then TypeError
  else if negb (matches (doc s) CODE_EXPAND_BTN target) then Ok s
  else
    match closest (doc s) CM_EDITOR target with
    | None => Ok s
    | Some editorRoot =>
        let isCollapsed := String.eqb (get_id (doc s) editorRoot) "collapsed" in
        Ok (with_frameQueue
              (frameQueue s ++ [Callback editorRoot target isCollapsed]) s)
    end.

(** The body of the closure run at the next animation frame. *)
Definition toggle (cb : callback) (s : state) : state :=
  let editorRoot := cb_editorRoot cb in
  let button := cb_button cb in
  if cb_isCollapsed cb then
    let h := match querySelector (doc s) CM_SCROLLER editorRoot with
             | Some scroller => px (get_scrollHeight (doc s) scroller)
             | None => "auto"
             end in
    with_doc (set_id button "expanded"
                (set_id editorRoot "expanded"
                   (set_height editorRoot h (doc s)))) s
  else
    let s := with_doc (set_id button "collapsed"
                         (set_id editorRoot "collapsed"
                            (set_height editorRoot (px COLLAPSED_HEIGHT)
                               (doc s)))) s in
    let scrollTarget :=
      closest (doc s) MESSAGE_CONTAINER editorRoot ≫= parentElement (doc s) in
    match scrollTarget with
    | Some target => emit (ScrollIntoView target) s
    | None => s
    end.

(** The browser running the queued animation-frame callbacks. *)
Definition animationFrame (s : state) : state :=
  forEach toggle (frameQueue s) (with_frameQueue [] s).

(** *** Initialization *)

Definition init (s : state) : state :=
  let s := with_isCurrentlyEditPage (checkIsEditPage s) s in
  if negb (isCurrentlyEditPage s) then
    let s := initializeAllCodeBlocks s in
    with_mutationObserverActive true (emit MutationObserve s)
  else s.

(** The state right after the script body has been evaluated. *)
Definition loaded (url : string) (d : page) : state :=
  let s := State url false false ∅ d [] [] in
  with_isCurrentlyEditPage (checkIsEditPage s) s.

(** *** The event loop *)

Inductive event :=
  | PushState (url : string)         (* history.pushState, intercepted *)
  | PopState (url : string)          (* back / forward *)
  | DOMContentLoaded
  | Resize (entries : list node_id)
  | Mutations (mutations : list mutation)
  | Click (target : node_id)
  | AnimationFrame
  | Layout (n : node_id) (h : Z)     (* content of [n] now measures [h] *)
  | ReplaceState (url : string)      (* history.replaceState and any other
                                        URL change that is not intercepted:
                                        no handler of the script runs *)
  | PushStateFails.                  (* the original pushState throws before
                                        the URL changes; onRouteChange is
                                        not reached *)

Definition step (e : event) (s : state) : state :=
  match e with
  | PushState url | PopState url => onRouteChange (with_href url s)
  | DOMContentLoaded => init s
  | Resize entries => resizeCallback entries s
  | Mutations ms => mutationCallback ms s
  | Click target =>
      match clickListener target s with
      | Ok s' => s'
      | TypeError => s       (* the listener threw before changing anything *)
      end
  | AnimationFrame => animationFrame s
  | Layout n h => with_doc (set_scrollHeight n h (doc s)) s
  | ReplaceState url => with_href url s
  | PushStateFails => s
  end.

Definition run (es : list event) (s : state) : state := forEach step es s.

(** ** Vocabulary of the specification *)

(** The two ways in which the script (and the layout engine) change the
    page: a property of one node is overwritten, its node type and class
    list staying as they are, or a freshly created toggle button is
    appended to a node. *)
Inductive mutates : page → page → Prop :=
  | mutates_alter n f d :
      (∀ p, nodeType (f p) = nodeType p) →
      (∀ p, classList (f p) = classList p) →
      mutates d (with_nodes (alter f n (nodes d)) d)
  | mutates_append r d :
      mutates d (appendChild_new r expandBtn d).

Definition evolves : page → page → Prop := rtc mutates.

(** Selectors that the toggle button itself does not match. *)
Definition not_button (sel : selector) : Prop :=
  has_classes sel expandBtn = false.

(** What [updateCodeBlock] does to the page when it attaches a button. *)
Definition collapsed_page (r : node_id) (d : page) : page :=
  appendChild_new r expandBtn
    (set_height r (px COLLAPSED_HEIGHT) (set_id r "collapsed" d)).

(** What every callback of the script guarantees about the state it
    leaves behind: the page only evolves, and no editor is forgotten. *)
Record advances (s s' : state) : Prop := Advances {
  adv_doc : evolves (doc s) (doc s');
  adv_observed : observedCodeBlocks s ⊆ observedCodeBlocks s'
}.

(** Whether the MutationObserver is attached, read off the trace: the most
    recent of its calls decides. *)
Fixpoint observer_attached (t : list call) : bool :=
  match t with
  | [] => false
  | MutationObserve :: _ => true
  | MutationDisconnect :: _ => false
  | _ :: t' => observer_attached t'
  end.

(** No [observe] while attached and no [disconnect] while detached. *)
Fixpoint well_bracketed (t : list call) : bool :=
  match t with
  | [] => true
  | MutationObserve :: t' => negb (observer_attached t') && well_bracketed t'
  | MutationDisconnect :: t' => observer_attached t' && well_bracketed t'
  | _ :: t' => well_bracketed t'
  end.

(** A navigation: the URL changes, then the intercepted handler runs. *)
Definition navigate (url : string) (s : state) : state :=
  onRouteChange (with_href url s).

(** The events that run neither the navigation handler nor [init]. *)
Definition quiet (e : event) : Prop :=
  match e with
  | PushState _ | PopState _ | DOMContentLoaded => False
  | _ => True
  end.

(** Quiet events leave the route mode and the observer as they are. *)
Record observer_untouched (s s' : state) : Prop := ObserverUntouched {
  ou_edit : isCurrentlyEditPage s' = isCurrentlyEditPage s;
  ou_active : mutationObserverActive s' = mutationObserverActive s;
  ou_attached : observer_attached (trace s') = observer_attached (trace s);
  ou_bracketed : well_bracketed (trace s') = well_bracketed (trace s)
}.

(** The editors that the MutationObserver callback initializes for one
    added node, and for a whole batch of mutation records. *)
Definition added_targets (d : page) (node : node_id) : list node_id :=
  if negb (is_element d node) then []
  else if matches d CM_EDITOR node then [node]
  else querySelectorAll d CM_EDITOR node.

Definition batch_targets (d : page) (ms : list mutation) : list node_id :=
  ms ≫= (λ m, addedNodes m ≫= added_targets d).

(** How often [resizeObserver.observe(r)] was called, that is, how often
    [r] was initialized. *)
Definition observes (r : node_id) (t : list call) : nat :=
  count_occ call_eq_dec t (ResizeObserve r).

(** Initializations of [r] are counted by its entry into the tracked set. *)
Definition counted (r : node_id) (s s' : state) : Prop :=
  observedCodeBlocks s ⊆ observedCodeBlocks s'
  ∧ observes r (trace s')
    = observes r (trace s)
      + (if decide (r ∈ observedCodeBlocks s' ∧ r ∉ observedCodeBlocks s)
         then 1 else 0).

(** C6 as the specification words it: every editor root that a structural
    mutation brings in, be it the added node or nested anywhere inside
    it, is initialized exactly once. *)
Definition every_added_editor_initialized : Prop :=
  ∀ s ms m node r,
    isCurrentlyEditPage s = false →
    m ∈ ms → node ∈ addedNodes m →
    r = node ∨ r ∈ querySelectorAll (doc s) CM_EDITOR node →
    matches (doc s) CM_EDITOR r = true →
    r ∉ observedCodeBlocks s →
    let s' := mutationCallback ms s in
    r ∈ observedCodeBlocks s'
    ∧ observes r (trace s') = S (observes r (trace s)).

(** Overwriting [id] or [style.height] changes neither the trees nor what
    any selector matches. *)
Definition same_shape (d d' : page) : Prop :=
  forest d' = forest d
  ∧ (∀ sel x, matches d' sel x = matches d sel x)
  ∧ (∀ x, is_element d' x = is_element d x).

(** The height that expanding gives the root: the scroller's full scroll
    height, or "auto" when the root has no scroller. *)
Definition full_height (d : page) (r : node_id) : string :=
  match querySelector d CM_SCROLLER r with
  | Some scroller => px (get_scrollHeight d scroller)
  | None => "auto"
  end.

(** The callbacks that initialize editors leave the route flags, the URL,
    the frame queue and the MutationObserver alone. *)
Record same_control (s s' : state) : Prop := SameControl {
  sc_href : href s' = href s;
  sc_edit : isCurrentlyEditPage s' = isCurrentlyEditPage s;
  sc_active : mutationObserverActive s' = mutationObserverActive s;
  sc_queue : frameQueue s' = frameQueue s;
  sc_attached : observer_attached (trace s') = observer_attached (trace s);
  sc_bracketed : well_bracketed (trace s') = well_bracketed (trace s)
}.

Create HintDb page.

(** ** Vocabulary for the invariants of whole runs *)

(** URL changes that reach no handler of the script. *)
Definition bypasses (e : event) : Prop :=
  match e with
  | ReplaceState _ => True
  | _ => False
  end.

(** The URL and the route flag are as before. *)
Record route_kept (s s' : state) : Prop := RouteKept {
  rk_href : href s' = href s;
  rk_edit : isCurrentlyEditPage s' = isCurrentlyEditPage s
}.

(** Only the page differs. *)
Definition only_page (s s' : state) : Prop := s' = with_doc (doc s') s.

(** Whatever entered the tracked set is an editor root. *)
Record tracks_editors (s s' : state) : Prop := TracksEditors {
  te_advances : advances s s';
  te_new : ∀ r, r ∈ observedCodeBlocks s' →
                r ∈ observedCodeBlocks s ∨ matches (doc s') CM_EDITOR r = true
}.

(** No node is lost, none changes its type or classes, and a node that is
    new is a toggle button. *)
Definition nodes_kept (d d' : page) : Prop :=
  ∀ n,
    match nodes d !! n with
    | Some p0 =>
        ∃ p, nodes d' !! n = Some p
             ∧ nodeType p = nodeType p0 ∧ classList p = classList p0
    | None =>
        nodes d' !! n = None
        ∨ ∃ p, nodes d' !! n = Some p
               ∧ nodeType p = ELEMENT_NODE
               ∧ classList p = ["code-expand-btn"]
    end.

(** The trees keep what they had: no identity goes out of use; the
    document and the detached trees stay where they are, each listing its
    former nodes in their former document order once the new ones are left
    out; a node keeps its chain of ancestors, and its former children stay
    its first children, in order. *)
Definition trees_kept (d d' : page) : Prop :=
  node_ids d ⊆ node_ids d'
  ∧ Forall2 (λ t t', filter (λ n, n ∈ node_ids d) (preorder t') = preorder t)
            (forest d) (forest d')
  ∧ (∀ n p, path d n = Some p → path d' n = Some p)
  ∧ (∀ r, child_ids d r `prefix_of` child_ids d' r).

(** The trees, what selectors match, the measured heights and the tracked
    set are as before. *)
Record shape_kept (s s' : state) : Prop := ShapeKept {
  sk_shape : same_shape (doc s) (doc s');
  sk_scrollHeight : ∀ n, get_scrollHeight (doc s') n = get_scrollHeight (doc s) n;
  sk_observed : observedCodeBlocks s' = observedCodeBlocks s
}.

(** An [id] is either as before or one of the two markers. *)
Definition marks (s s' : state) : Prop :=
  ∀ n, get_id (doc s') n = get_id (doc s) n
       ∨ get_id (doc s') n = "collapsed"
       ∨ get_id (doc s') n = "expanded".

(** ** A sample page *)

(** C1 as the specification words it: an editor root that measures more
    than 400 when it is initialized ends with exactly one toggle button
    attached, marked "collapsed" and 400px high. *)
Definition every_tall_editor_collapsed : Prop :=
  ∀ s r,
    matches (doc s) CM_EDITOR r = true →
    is_Some (lookup_sub (doc s) r) →
    r ∉ observedCodeBlocks s →
    (COLLAPSED_HEIGHT < get_scrollHeight (doc s) r)%Z →
    let s' := initializeCodeBlock r s in
    (∃ b, filter (λ x, matches (doc s') CODE_EXPAND_BTN x)
            (child_ids (doc s') r) = [b])
    ∧ get_id (doc s') r = "collapsed"
    ∧ get_height (doc s') r = "400px".

(** C3 as the specification words it: in every state the script reaches,
    when the current URL contains the marker, the three reactions change
    nothing. *)
Definition url_gates_reactions : Prop :=
  ∀ url d es,
    let s := run es (loaded url d) in
    checkIsEditPage s = true →
    initializeAllCodeBlocks s = s
    ∧ (∀ entries, resizeCallback entries s = s)
    ∧ (∀ mutations, mutationCallback mutations s = s).

(** A page for the examples: a document with a body (1) that holds a
    message container (2, 3); in it a tall editor (4) with its scroller (5),
    a short editor (6), and an editor (7) that has another editor (8)
    nested inside. *)
Definition element (classes : list string) (h : Z) : node :=
  Node ELEMENT_NODE classes "" "" h.

Definition sample_page : page :=
  Page
    (T 0 [T 1 [T 2 [T 3 [T 4 [T 5 []]; T 6 []]]; T 7 [T 8 []]]])
    []
    (list_to_map
       [(0, Node 9 [] "" "" 0%Z);
        (1, element [] 2000);
        (2, element [] 900);
        (3, element ["relative"; "my-2"] 900);
        (4, element ["cm-editor"] 600);
        (5, element ["cm-scroller"] 777);
        (6, element ["cm-editor"] 100);
        (7, element ["cm-editor"] 500);
        (8, element ["cm-editor"] 450)]).

Definition sample_state : state := loaded "https://chat.example/c/42" sample_page.

(** The sample page after the script has started. *)
Definition started : state := init sample_state.

(** The same page, opened on the page where the script is disabled. *)
Definition on_edit_page : state :=
  loaded "https://chat.example/admin/functions/edit" sample_page.

(** Editor 7, which has neither a scroller nor a message container around
    it, after a click on its button 10 and the following frame. *)
Definition expanded7 : state := run [Click 10; AnimationFrame] started.

(** The nested editor 8 is added, and initialized, before editor 7. *)
Definition nested_first : state :=
  mutationCallback [Mutation [8]] sample_state.

(** A navigation to the disabled page, then other events, among them a URL
    change that is not intercepted. *)
Definition to_edit_page : state :=
  run [Layout 6 650; ReplaceState "https://chat.example/c/7";
       Click 9; AnimationFrame]
    (step (PushState "https://chat.example/admin/functions") started).

(** Editor 4, which sits in a message container, expanded. *)
Definition expanded4 : state := run [Click 9; AnimationFrame] started.

(** A navigation handled before the document was ready. *)
Definition navigated_early : state :=
  navigate "https://chat.example/c/42" sample_state.

(** * Facts about the document model *)

(** ** Searching a list of trees *)

Section first_some.
Context {A B : Type} (f : A → option B).

Lemma first_some_app l1 l2 :
  first_some f (l1 ++ l2) =
  match first_some f l1 with Some y => Some y | None => first_some f l2 end.
Proof. induction l1 as [|x l1 IH]; simpl; [done|]. by destruct (f x). Qed.

Lemma first_some_None l : Forall (λ x, f x = None) l → first_some f l = None.
Proof. induction 1 as [|x l Hx _ IH]; simpl; [done|]. by rewrite Hx. Qed.

Lemma first_some_Some l y :
  first_some f l = Some y → ∃ x, x ∈ l ∧ f x = Some y.
Proof.
  induction l as [|x l IH]; simpl; [done|].
  destruct (f x) eqn:E.
  - intros [= <-]. exists x. split; [left | done].
  - intros (x' & ? & ?)%IH. exists x'. split; [by right | done].
Qed.
End first_some.

Lemma first_some_fmap_commute {A B}
    (f : A → option B) (g : A → A) (h : B → B) l :
  Forall (λ x, f (g x) = h <$> f x) l →
  first_some f (g <$> l) = h <$> first_some f l.
Proof.
  induction 1 as [|x l Hx _ IH]; simpl; [done|].
  rewrite Hx. destruct (f x); simpl; [done | apply IH].
Qed.

Lemma first_some_fmap_same {A B} (f : A → option B) (g : A → A) l :
  Forall (λ x, f (g x) = f x) l →
  first_some f (g <$> l) = first_some f l.
Proof.
  induction 1 as [|x l Hx _ IH]; simpl; [done|].
  rewrite Hx. destruct (f x); simpl; [done | apply IH].
Qed.

Section graft.
Context (p b : node_id).

Lemma root_id_graft t : root_id (graft p b t) = root_id t.
Proof. by destruct t. Qed.

Lemma children_graft t :
  children (graft p b t) =
  (graft p b <$> children t) ++
  (if decide (root_id t = p) then [T b []] else []).
Proof. by destruct t. Qed.

Lemma find_sub_leaf r : r ≠ b → find_sub r (T b []) = None.
Proof. intros. simpl. by rewrite decide_False. Qed.

Lemma find_sub_graft r t :
  r ≠ b → find_sub r (graft p b t) = graft p b <$> find_sub r t.
Proof.
  intros Hr. induction t as [n ks IH] using tree_forall_ind. simpl.
  destruct (decide (n = r)); [done|].
  rewrite first_some_app, (first_some_fmap_commute _ _ (graft p b) _ IH).
  destruct (first_some (find_sub r) ks); simpl; [done|].
  destruct (decide (n = p)); simpl; [|done].
  by rewrite decide_False.
Qed.

Lemma path_to_graft r t : r ≠ b → path_to r (graft p b t) = path_to r t.
Proof.
  intros Hr. induction t as [n ks IH] using tree_forall_ind. simpl.
  destruct (decide (n = r)); [done|].
  rewrite first_some_app, (first_some_fmap_same _ _ _ IH).
  destruct (first_some (path_to r) ks); simpl; [done|].
  destruct (decide (n = p)); simpl; [|done].
  by rewrite decide_False.
Qed.

Lemma filter_preorder_graft (P : nat → Prop) `{!∀ x, Decision (P x)} t :
  ¬ P b → filter P (preorder (graft p b t)) = filter P (preorder t).
Proof.
  intros Hb. induction t as [n ks IH] using tree_forall_ind. simpl.
  assert (filter P ((graft p b <$> ks) ≫= preorder) = filter P (ks ≫= preorder)) as Hks.
  { induction IH as [|k ks Hk _ IHks]; [done|].
    by rewrite fmap_cons, !bind_cons, !filter_app, Hk, IHks. }
  rewrite bind_app, !filter_cons, filter_app, Hks.
  destruct (decide (n = p)); simpl.
  - rewrite filter_cons_False by done. by rewrite !app_nil_r.
  - by rewrite !app_nil_r.
Qed.

Lemma find_sub_graft_fresh t t' :
  b ∉ preorder t → find_sub b (graft p b t) = Some t' → t' = T b [].
Proof.
  induction t as [n ks IH] using tree_forall_ind. simpl. intros Hb.
  apply not_elem_of_cons in Hb as [Hn Hb].
  rewrite decide_False by done.
  rewrite first_some_app.
  destruct (first_some _ (graft p b <$> ks)) eqn:E.
  - intros [= <-]. apply first_some_Some in E as (k' & Hk' & E).
    apply list_elem_of_fmap in Hk' as (k & -> & Hk).
    rewrite Forall_forall in IH. apply (IH k Hk); [|done].
    intros ?. apply Hb, list_elem_of_bind. eauto.
  - destruct (decide (n = p)); simpl; [|done].
    rewrite decide_True by done. by intros [= <-].
Qed.
End graft.

Lemma first_some_is_Some {A B} (f : A → option B) l x :
  x ∈ l → is_Some (f x) → is_Some (first_some f l).
Proof.
  induction 1 as [x l|x y l _ IH]; simpl; intros Hx.
  - destruct Hx as [? ->]. eauto.
  - destruct (f y); eauto.
Qed.

(** The new leaf hangs directly below [p]. *)
Lemma path_to_graft_fresh p b t q :
  b ∉ preorder t → path_to b (graft p b t) = Some q →
  ∃ rest, q = b :: p :: rest.
Proof.
  revert q. induction t as [n ks IH] using tree_forall_ind. intros q Hb. simpl.
  apply not_elem_of_cons in Hb as [Hn Hb].
  rewrite decide_False by done. rewrite first_some_app.
  destruct (first_some _ (graft p b <$> ks)) as [q0|] eqn:E.
  - intros [= <-]. apply first_some_Some in E as (k' & Hk' & E).
    apply list_elem_of_fmap in Hk' as (k & -> & Hk).
    rewrite Forall_forall in IH. destruct (IH k Hk q0) as [rest ->]; [|done|].
    + intros ?. apply Hb, list_elem_of_bind. eauto.
    + by exists (rest ++ [n]).
  - destruct (decide (n = p)) as [->|]; simpl; [|done].
    rewrite decide_True by done. intros [= <-]. by exists [].
Qed.

Lemma path_to_graft_fresh_is_Some p b t :
  is_Some (find_sub p t) → is_Some (path_to b (graft p b t)).
Proof.
  induction t as [n ks IH] using tree_forall_ind. simpl.
  destruct (decide (n = b)); [eauto|].
  rewrite first_some_app.
  destruct (first_some _ (graft p b <$> ks)) as [q0|] eqn:E; [eauto|].
  destruct (decide (n = p)) as [->|]; simpl.
  - rewrite decide_True by done. eauto.
  - intros [t' (k & Hk & Ek)%first_some_Some].
    rewrite Forall_forall in IH.
    destruct (first_some_is_Some (path_to b) (graft p b <$> ks) (graft p b k))
      as [q Hq]; [by apply list_elem_of_fmap_2 | by apply IH; eauto |].
    congruence.
Qed.

Lemma find_sub_root r t t' : find_sub r t = Some t' → root_id t' = r.
Proof.
  induction t as [n ks IH] using tree_forall_ind. simpl.
  destruct (decide (n = r)) as [->|].
  - by intros [= <-].
  - intros (k & Hk & E)%first_some_Some. rewrite Forall_forall in IH. eauto.
Qed.

Lemma find_sub_root_forest d r t : lookup_sub d r = Some t → root_id t = r.
Proof. intros (t0 & _ & E)%first_some_Some. by eapply find_sub_root. Qed.

Lemma find_sub_preorder r t t' :
  find_sub r t = Some t' → preorder t' ⊆ preorder t.
Proof.
  induction t as [n ks IH] using tree_forall_ind. simpl.
  destruct (decide (n = r)) as [->|].
  - by intros [= <-].
  - intros (k & Hk & E)%first_some_Some. rewrite Forall_forall in IH.
    intros x Hx. right. apply list_elem_of_bind. exists k. split; [|done].
    by apply (IH k Hk E).
Qed.

Lemma find_sub_None r t : r ∉ preorder t → find_sub r t = None.
Proof.
  induction t as [n ks IH] using tree_forall_ind. simpl. intros [Hn Hr]%not_elem_of_cons.
  rewrite decide_False by done. apply first_some_None.
  rewrite Forall_forall in IH |- *. intros k Hk. apply IH; [done|].
  intros ?. apply Hr, list_elem_of_bind. eauto.
Qed.

(** ** One mutation of the page *)

Lemma fresh_id_nodes d : nodes d !! fresh_id d = None.
Proof.
  apply not_elem_of_dom. intros H.
  apply (is_fresh (node_ids d)). unfold node_ids. set_solver.
Qed.

Lemma fresh_id_forest d t : t ∈ forest d → fresh_id d ∉ preorder t.
Proof.
  intros Ht H. apply (is_fresh (node_ids d)). unfold node_ids.
  apply elem_of_union_r, elem_of_list_to_set, list_elem_of_bind. eauto.
Qed.

Lemma lookup_sub_in_forest d r t :
  lookup_sub d r = Some t → ∃ t0, t0 ∈ forest d ∧ find_sub r t0 = Some t.
Proof. apply first_some_Some. Qed.

Lemma lookup_sub_fresh d : lookup_sub d (fresh_id d) = None.
Proof.
  apply first_some_None, Forall_forall. intros t Ht.
  by apply find_sub_None, fresh_id_forest.
Qed.

Lemma forest_append r p d :
  forest (appendChild_new r p d) = graft r (fresh_id d) <$> forest d.
Proof. done. Qed.

Lemma lookup_sub_append r p d x :
  x ≠ fresh_id d →
  lookup_sub (appendChild_new r p d) x = graft r (fresh_id d) <$> lookup_sub d x.
Proof.
  intros Hx. unfold lookup_sub. rewrite forest_append.
  apply first_some_fmap_commute, Forall_forall. intros t _.
  by apply find_sub_graft.
Qed.

Lemma lookup_sub_append_fresh r p d t :
  lookup_sub (appendChild_new r p d) (fresh_id d) = Some t → t = T (fresh_id d) [].
Proof.
  unfold lookup_sub. rewrite forest_append.
  intros (t0' & Ht0 & E)%first_some_Some.
  apply list_elem_of_fmap in Ht0 as (t0 & -> & Ht0).
  eapply find_sub_graft_fresh; [|done]. by apply fresh_id_forest.
Qed.

Lemma path_append r p d x :
  x ≠ fresh_id d → path (appendChild_new r p d) x = path d x.
Proof.
  intros Hx. unfold path. rewrite forest_append.
  apply first_some_fmap_same, Forall_forall. intros t _.
  by apply path_to_graft.
Qed.

Lemma matches_alter f n d sel x :
  (∀ p, nodeType (f p) = nodeType p) →
  (∀ p, classList (f p) = classList p) →
  matches (with_nodes (alter f n (nodes d)) d) sel x = matches d sel x.
Proof.
  intros Hty Hcl. unfold matches, has_classes. simpl. rewrite lookup_alter.
  case_decide; [subst|done].
  destruct (nodes d !! x); simpl; [|done]. by rewrite Hty, Hcl.
Qed.

Lemma is_element_alter f n d x :
  (∀ p, nodeType (f p) = nodeType p) →
  is_element (with_nodes (alter f n (nodes d)) d) x = is_element d x.
Proof.
  intros Hty. unfold is_element. simpl. rewrite lookup_alter.
  case_decide; [subst|done].
  destruct (nodes d !! x); simpl; [|done]. by rewrite Hty.
Qed.

Lemma matches_append r d sel x :
  not_button sel →
  matches (appendChild_new r expandBtn d) sel x = matches d sel x.
Proof.
  intros Hsel. unfold matches. simpl. rewrite lookup_insert.
  case_decide; [subst|done].
  rewrite fresh_id_nodes, Hsel. apply andb_false_r.
Qed.

Lemma matches_append_old r p d sel x :
  x ≠ fresh_id d → matches (appendChild_new r p d) sel x = matches d sel x.
Proof. intros. unfold matches. simpl. by rewrite lookup_insert_ne. Qed.

Lemma matches_fresh d sel : matches d sel (fresh_id d) = false.
Proof. unfold matches. by rewrite fresh_id_nodes. Qed.

Lemma matches_append_new r d sel :
  matches (appendChild_new r expandBtn d) sel (fresh_id d)
  = has_classes sel expandBtn.
Proof. unfold matches. simpl. by rewrite lookup_insert_eq. Qed.

Lemma mutates_matches d d' sel x :
  mutates d d' → not_button sel → matches d' sel x = matches d sel x.
Proof.
  destruct 1; intros; [by apply matches_alter | by apply matches_append].
Qed.

Lemma mutates_matches_mono d d' sel x :
  mutates d d' → matches d sel x = true → matches d' sel x = true.
Proof.
  destruct 1 as [n f d Hty Hcl | r d]; intros Hx.
  - by rewrite matches_alter.
  - rewrite matches_append_old; [done|].
    intros ->. by rewrite matches_fresh in Hx.
Qed.

Lemma filter_descendants_graft (P : nat → Prop) `{!∀ x, Decision (P x)} p b t :
  ¬ P b → filter P (descendants (graft p b t)) = filter P (descendants t).
Proof.
  intros Hb. destruct t as [n ks]. unfold descendants. simpl.
  rewrite bind_app, filter_app.
  assert (filter P ((graft p b <$> ks) ≫= preorder) = filter P (ks ≫= preorder))
    as ->.
  { induction ks as [|k ks IH]; [done|].
    by rewrite fmap_cons, !bind_cons, !filter_app, IH, filter_preorder_graft. }
  destruct (decide (n = p)); simpl.
  - rewrite filter_cons_False by done. by rewrite app_nil_r.
  - by rewrite app_nil_r.
Qed.

Lemma filter_matches_ext d d' sel (l : list nat) :
  (∀ x, matches d' sel x = matches d sel x) →
  filter (λ x, matches d' sel x) l = filter (λ x, matches d sel x) l.
Proof. intros H. apply list_filter_iff. intros x. by rewrite H. Qed.

Lemma querySelectorAll_append r d sel n :
  not_button sel →
  querySelectorAll (appendChild_new r expandBtn d) sel n
  = querySelectorAll d sel n.
Proof.
  intros Hsel. unfold querySelectorAll.
  destruct (decide (n = fresh_id d)) as [->|Hn].
  - rewrite lookup_sub_fresh.
    destruct (lookup_sub (appendChild_new _ _ _) _) as [t|] eqn:E; [|done].
    apply lookup_sub_append_fresh in E as ->. reflexivity.
  - rewrite lookup_sub_append by done.
    destruct (lookup_sub d n) as [t|]; simpl; [|done].
    rewrite (filter_matches_ext d); [|intros; by apply matches_append].
    apply filter_descendants_graft.
    cbv beta. rewrite matches_fresh. by intros [].
Qed.

Lemma document_querySelectorAll_append r d sel :
  not_button sel →
  document_querySelectorAll (appendChild_new r expandBtn d) sel
  = document_querySelectorAll d sel.
Proof.
  intros Hsel. unfold document_querySelectorAll. simpl document.
  rewrite (filter_matches_ext d); [|intros; by apply matches_append].
  apply filter_descendants_graft.
  cbv beta. rewrite matches_fresh. by intros [].
Qed.

Lemma mutates_querySelectorAll d d' sel n :
  mutates d d' → not_button sel →
  querySelectorAll d' sel n = querySelectorAll d sel n.
Proof.
  destruct 1 as [m f d Hty Hcl | r d]; intros Hsel.
  - unfold querySelectorAll. change (lookup_sub (with_nodes _ d) n) with (lookup_sub d n).
    destruct (lookup_sub d n); [|done].
    apply filter_matches_ext. intros. by apply matches_alter.
  - by apply querySelectorAll_append.
Qed.

Lemma mutates_document_querySelectorAll d d' sel :
  mutates d d' → not_button sel →
  document_querySelectorAll d' sel = document_querySelectorAll d sel.
Proof.
  destruct 1 as [m f d Hty Hcl | r d]; intros Hsel.
  - apply filter_matches_ext. intros. by apply matches_alter.
  - by apply document_querySelectorAll_append.
Qed.

Lemma child_ids_in_forest d r x :
  x ∈ child_ids d r → ∃ t, lookup_sub d r = Some t ∧ x ∈ root_id <$> children t.
Proof.
  unfold child_ids. destruct (lookup_sub d r); [eauto|].
  by intros ?%elem_of_nil.
Qed.

Lemma lookup_sub_not_fresh d r t : lookup_sub d r = Some t → r ≠ fresh_id d.
Proof. intros E ->. by rewrite lookup_sub_fresh in E. Qed.

Lemma child_ids_append p el d r :
  r ≠ fresh_id d →
  child_ids (appendChild_new p el d) r =
  match lookup_sub d r with
  | Some _ => child_ids d r ++ (if decide (r = p) then [fresh_id d] else [])
  | None => []
  end.
Proof.
  intros Hr. unfold child_ids. rewrite lookup_sub_append by done.
  destruct (lookup_sub d r) as [t|] eqn:E; simpl; [|done].
  rewrite children_graft, fmap_app, (find_sub_root_forest d r t E).
  f_equal.
  - rewrite <-list_fmap_compose. apply list_fmap_ext. intros _ k _. simpl.
    apply root_id_graft.
  - by destruct (decide (r = p)).
Qed.

Lemma mutates_child_ids d d' r x :
  mutates d d' → x ∈ child_ids d r → x ∈ child_ids d' r.
Proof.
  destruct 1 as [m f d Hty Hcl | p d]; [done|]. intros Hx.
  destruct (child_ids_in_forest _ _ _ Hx) as (t & E & _).
  rewrite child_ids_append, E by (by eapply lookup_sub_not_fresh).
  apply elem_of_app. by left.
Qed.

Lemma mutates_is_element_mono d d' x :
  mutates d d' → is_element d x = true → is_element d' x = true.
Proof.
  destruct 1 as [m f d Hty Hcl | p d]; intros Hx.
  - by rewrite is_element_alter.
  - unfold is_element in *. simpl. rewrite lookup_insert_ne; [done|].
    intros <-. by rewrite fresh_id_nodes in Hx.
Qed.

(** ** Any number of mutations *)

Lemma evolves_matches d d' sel x :
  evolves d d' → not_button sel → matches d' sel x = matches d sel x.
Proof.
  induction 1 as [|d1 d2 d3 H _ IH]; intros Hsel; [done|].
  rewrite IH by done. by apply mutates_matches.
Qed.

Lemma evolves_matches_mono d d' sel x :
  evolves d d' → matches d sel x = true → matches d' sel x = true.
Proof. induction 1; eauto using mutates_matches_mono. Qed.

Lemma evolves_is_element_mono d d' x :
  evolves d d' → is_element d x = true → is_element d' x = true.
Proof. induction 1; eauto using mutates_is_element_mono. Qed.

Lemma evolves_querySelectorAll d d' sel n :
  evolves d d' → not_button sel →
  querySelectorAll d' sel n = querySelectorAll d sel n.
Proof.
  induction 1 as [|d1 d2 d3 H _ IH]; intros Hsel; [done|].
  rewrite IH by done. by apply mutates_querySelectorAll.
Qed.

Lemma evolves_document_querySelectorAll d d' sel :
  evolves d d' → not_button sel →
  document_querySelectorAll d' sel = document_querySelectorAll d sel.
Proof.
  induction 1 as [|d1 d2 d3 H _ IH]; intros Hsel; [done|].
  rewrite IH by done. by apply mutates_document_querySelectorAll.
Qed.

Lemma evolves_child_ids d d' r x :
  evolves d d' → x ∈ child_ids d r → x ∈ child_ids d' r.
Proof. induction 1; eauto using mutates_child_ids. Qed.

Lemma child_in_querySelectorAll d sel r x :
  x ∈ child_ids d r → matches d sel x = true → x ∈ querySelectorAll d sel r.
Proof.
  intros (t & E & Hx)%child_ids_in_forest Hm. unfold querySelectorAll.
  rewrite E. apply list_elem_of_filter. split; [by rewrite Hm|].
  apply list_elem_of_fmap in Hx as (k & -> & Hk).
  apply list_elem_of_bind. exists k. split; [|done].
  destruct k. by left.
Qed.

Lemma not_button_CM_EDITOR : not_button CM_EDITOR.
Proof. reflexivity. Qed.

Lemma not_button_CM_SCROLLER : not_button CM_SCROLLER.
Proof. reflexivity. Qed.

Lemma not_button_MESSAGE_CONTAINER : not_button MESSAGE_CONTAINER.
Proof. reflexivity. Qed.

Lemma mutates_set_id n v d : mutates d (set_id n v d).
Proof. by apply mutates_alter. Qed.

Lemma mutates_set_height n v d : mutates d (set_height n v d).
Proof. by apply mutates_alter. Qed.

Lemma mutates_set_scrollHeight n h d : mutates d (set_scrollHeight n h d).
Proof. by apply mutates_alter. Qed.

#[local] Hint Resolve mutates_set_id mutates_set_height
  mutates_set_scrollHeight mutates_append : page.
#[local] Hint Resolve not_button_CM_EDITOR not_button_CM_SCROLLER
  not_button_MESSAGE_CONTAINER : page.

(** * Facts about the script *)

Lemma with_doc_doc s : with_doc (doc s) s = s.
Proof. by destruct s. Qed.

Lemma updateCodeBlock_spec r s :
  updateCodeBlock r s =
  if bool_decide (querySelector (doc s) CODE_EXPAND_BTN r = None)
     && (COLLAPSED_HEIGHT <? get_scrollHeight (doc s) r)%Z
  then with_doc (collapsed_page r (doc s)) s
  else s.
Proof.
  unfold updateCodeBlock, collapsed_page.
  destruct (querySelector _ _ _); simpl; [done|].
  by destruct (_ <? _)%Z.
Qed.

Lemma evolves_collapsed_page r d : evolves d (collapsed_page r d).
Proof.
  unfold collapsed_page.
  eapply rtc_l; [apply mutates_set_id|].
  eapply rtc_l; [apply mutates_set_height|].
  apply rtc_once, mutates_append.
Qed.

Global Instance advances_preorder : PreOrder advances.
Proof.
  split.
  - intros s. by split.
  - intros s1 s2 s3 [] []. split; [by etrans | set_solver].
Qed.

Global Instance same_control_preorder : PreOrder same_control.
Proof.
  split.
  - intros s. by split.
  - intros s1 s2 s3 [] []. split; congruence.
Qed.

Lemma forEach_nil {A} (f : A → state → state) s : forEach f [] s = s.
Proof. done. Qed.

Lemma forEach_cons {A} (f : A → state → state) x l s :
  forEach f (x :: l) s = forEach f l (f x s).
Proof. done. Qed.

Lemma forEach_app {A} (f : A → state → state) l1 l2 s :
  forEach f (l1 ++ l2) s = forEach f l2 (forEach f l1 s).
Proof. apply fold_left_app. Qed.

Lemma forEach_preorder {A} (R : relation state) `{!PreOrder R}
    (f : A → state → state) l s :
  (∀ x s, R s (f x s)) → R s (forEach f l s).
Proof.
  intros Hf. revert s. induction l as [|x l IH]; intros s; [done|].
  rewrite forEach_cons. etrans; [apply Hf | apply IH].
Qed.

Lemma forEach_fixed {A} (f : A → state → state) l s :
  (∀ x, x ∈ l → f x s = s) → forEach f l s = s.
Proof.
  induction l as [|x l IH]; intros Hf; [done|].
  rewrite forEach_cons, Hf by left. apply IH. intros y Hy. apply Hf. by right.
Qed.

Lemma updateCodeBlock_advances r s : advances s (updateCodeBlock r s).
Proof.
  rewrite updateCodeBlock_spec. destruct (_ && _); [|done].
  split; simpl; [apply evolves_collapsed_page | done].
Qed.

Lemma updateCodeBlock_same_control r s : same_control s (updateCodeBlock r s).
Proof. rewrite updateCodeBlock_spec. by destruct (_ && _). Qed.

Lemma updateCodeBlock_observed r s :
  observedCodeBlocks (updateCodeBlock r s) = observedCodeBlocks s.
Proof. rewrite updateCodeBlock_spec. by destruct (_ && _). Qed.

Lemma updateCodeBlock_trace r s : trace (updateCodeBlock r s) = trace s.
Proof. rewrite updateCodeBlock_spec. by destruct (_ && _). Qed.

Lemma initializeCodeBlock_observed_noop r s :
  r ∈ observedCodeBlocks s → initializeCodeBlock r s = s.
Proof. intros H. unfold initializeCodeBlock. by rewrite bool_decide_true. Qed.

Lemma initializeCodeBlock_advances r s : advances s (initializeCodeBlock r s).
Proof.
  unfold initializeCodeBlock. destruct (_ || _); [done|].
  etrans; [|apply updateCodeBlock_advances].
  split; simpl; [done | set_solver].
Qed.

Lemma initializeCodeBlock_same_control r s :
  same_control s (initializeCodeBlock r s).
Proof.
  unfold initializeCodeBlock. destruct (_ || _); [done|].
  etrans; [|apply updateCodeBlock_same_control]. done.
Qed.

Lemma initializeCodeBlock_observed r s :
  matches (doc s) CM_EDITOR r = true →
  r ∈ observedCodeBlocks (initializeCodeBlock r s).
Proof.
  intros Hm. unfold initializeCodeBlock. rewrite Hm, orb_false_r.
  case_bool_decide; [done|].
  rewrite updateCodeBlock_observed. simpl. set_solver.
Qed.

Lemma forEach_initializeCodeBlock_advances l s :
  advances s (forEach initializeCodeBlock l s).
Proof. apply (forEach_preorder advances), initializeCodeBlock_advances. Qed.

Lemma forEach_initializeCodeBlock_same_control l s :
  same_control s (forEach initializeCodeBlock l s).
Proof. apply (forEach_preorder same_control), initializeCodeBlock_same_control. Qed.

Lemma forEach_initializeCodeBlock_observed l s r :
  r ∈ l → matches (doc s) CM_EDITOR r = true →
  r ∈ observedCodeBlocks (forEach initializeCodeBlock l s).
Proof.
  revert s. induction l as [|x l IH]; intros s Hr Hm; [by apply elem_of_nil in Hr|].
  rewrite forEach_cons. apply elem_of_cons in Hr as [->|Hr].
  - eapply adv_observed; [apply forEach_initializeCodeBlock_advances|].
    by apply initializeCodeBlock_observed.
  - apply IH; [done|].
    eapply evolves_matches_mono; [|done]. apply initializeCodeBlock_advances.
Qed.

(** ** Route gating *)

(** The route flag is recomputed from the URL on every navigation. *)
Lemma onRouteChange_isCurrentlyEditPage s :
  isCurrentlyEditPage (onRouteChange s) = includes EDIT_PAGE_IDENTIFIER (href s).
Proof.
  unfold onRouteChange, checkIsEditPage. simpl.
  destruct (includes _ _) eqn:E; simpl.
  - by destruct (mutationObserverActive s).
  - set (s1 := with_isCurrentlyEditPage false s).
    assert (isCurrentlyEditPage (initializeAllCodeBlocks s1) = false) as H.
    { unfold initializeAllCodeBlocks. simpl.
      by rewrite (sc_edit _ _ (forEach_initializeCodeBlock_same_control _ _)). }
    by destruct (mutationObserverActive _).
Qed.

(** While the route flag is set, the full scan, the size-change reaction
    and the structural-change reaction return the state they were given. *)
Lemma flag_gates_reactions s :
  isCurrentlyEditPage s = true →
  initializeAllCodeBlocks s = s
  ∧ (∀ entries, resizeCallback entries s = s)
  ∧ (∀ mutations, mutationCallback mutations s = s).
Proof.
  intros H. unfold initializeAllCodeBlocks, resizeCallback, mutationCallback.
  by rewrite H.
Qed.

(** ** Editors that are left alone *)

Lemma updateCodeBlock_frame r r' s :
  is_Some (nodes (doc s) !! r) →
  r ≠ r' ∨ (get_scrollHeight (doc s) r ≤ COLLAPSED_HEIGHT)%Z →
  nodes (doc (updateCodeBlock r' s)) !! r = nodes (doc s) !! r
  ∧ child_ids (doc (updateCodeBlock r' s)) r = child_ids (doc s) r.
Proof.
  intros Hr Hne. rewrite updateCodeBlock_spec.
  destruct (_ && _) eqn:E; [|done].
  apply andb_true_iff in E as [_ Hh%Z.ltb_lt].
  assert (r ≠ r') as Hrr' by (destruct Hne; [done | intros ->; lia]).
  simpl. unfold collapsed_page.
  set (d2 := set_height r' _ (set_id r' _ (doc s))).
  assert (nodes d2 !! r = nodes (doc s) !! r) as Hd2.
  { unfold d2. simpl. by rewrite !lookup_alter_ne. }
  assert (r ≠ fresh_id d2) as Hfresh.
  { intros ->. rewrite fresh_id_nodes in Hd2. rewrite <-Hd2 in Hr.
    by destruct Hr. }
  split.
  - simpl. by rewrite lookup_insert_ne.
  - rewrite child_ids_append by done.
    change (lookup_sub d2 r) with (lookup_sub (doc s) r).
    change (child_ids d2 r) with (child_ids (doc s) r).
    unfold child_ids. destruct (lookup_sub (doc s) r); [|done].
    rewrite decide_False by done. apply app_nil_r.
Qed.

Lemma initializeCodeBlock_frame r r' s :
  is_Some (nodes (doc s) !! r) →
  r ≠ r' ∨ (get_scrollHeight (doc s) r ≤ COLLAPSED_HEIGHT)%Z →
  nodes (doc (initializeCodeBlock r' s)) !! r = nodes (doc s) !! r
  ∧ child_ids (doc (initializeCodeBlock r' s)) r = child_ids (doc s) r.
Proof.
  intros Hr Hne. unfold initializeCodeBlock. destruct (_ || _); [done|].
  set (s2 := emit _ _). by apply (updateCodeBlock_frame r r' s2).
Qed.

Lemma forEach_initializeCodeBlock_frame r l s :
  is_Some (nodes (doc s) !! r) →
  r ∉ l ∨ (get_scrollHeight (doc s) r ≤ COLLAPSED_HEIGHT)%Z →
  nodes (doc (forEach initializeCodeBlock l s)) !! r = nodes (doc s) !! r
  ∧ child_ids (doc (forEach initializeCodeBlock l s)) r = child_ids (doc s) r.
Proof.
  revert s. induction l as [|x l IH]; intros s Hr Hne; [done|].
  rewrite forEach_cons.
  destruct (initializeCodeBlock_frame r x s Hr) as [Hn Hc].
  { destruct Hne as [Hne|]; [left|by right]. intros ->. apply Hne. by left. }
  destruct (IH (initializeCodeBlock x s)) as [Hn' Hc'].
  - by rewrite Hn.
  - destruct Hne as [Hne|Hh]; [left|right].
    + intros ?. apply Hne. by right.
    + unfold get_scrollHeight in *. by rewrite Hn.
  - split; congruence.
Qed.

Lemma matches_is_Some d sel x : matches d sel x = true → is_Some (nodes d !! x).
Proof. unfold matches. by destruct (nodes d !! x). Qed.

(** C4.  An editor root that the scan finds with a content height of at
    most 400 comes out of the scan exactly as it went in: its properties
    (marker, inline height and all others) are unchanged and nothing has
    been attached to it. *)
Theorem short_editor_left_alone s r :
  r ∈ document_querySelectorAll (doc s) CM_EDITOR →
  (get_scrollHeight (doc s) r ≤ COLLAPSED_HEIGHT)%Z →
  let s' := initializeAllCodeBlocks s in
  nodes (doc s') !! r = nodes (doc s) !! r
  ∧ child_ids (doc s') r = child_ids (doc s) r
  ∧ get_id (doc s') r = get_id (doc s) r
  ∧ get_height (doc s') r = get_height (doc s) r.
Proof.
  intros Hr Hh. simpl. unfold initializeAllCodeBlocks.
  assert (is_Some (nodes (doc s) !! r)) as HS.
  { apply list_elem_of_filter in Hr as [Hm _]. apply (matches_is_Some _ CM_EDITOR).
    by destruct (matches _ _ _). }
  destruct (isCurrentlyEditPage s); [done|].
  destruct (forEach_initializeCodeBlock_frame r
              (document_querySelectorAll (doc s) CM_EDITOR) s HS) as [Hn Hc].
  { by right. }
  unfold get_id, get_height. by rewrite Hn.
Qed.

(** ** The scan is idempotent *)

Lemma initializeAllCodeBlocks_advances s :
  advances s (initializeAllCodeBlocks s).
Proof.
  unfold initializeAllCodeBlocks. destruct (isCurrentlyEditPage s); [done|].
  apply forEach_initializeCodeBlock_advances.
Qed.

Lemma initializeAllCodeBlocks_same_control s :
  same_control s (initializeAllCodeBlocks s).
Proof.
  unfold initializeAllCodeBlocks. destruct (isCurrentlyEditPage s); [done|].
  apply forEach_initializeCodeBlock_same_control.
Qed.

Lemma initializeAllCodeBlocks_observes s r :
  isCurrentlyEditPage s = false →
  r ∈ document_querySelectorAll (doc s) CM_EDITOR →
  r ∈ observedCodeBlocks (initializeAllCodeBlocks s).
Proof.
  intros Hp Hr. unfold initializeAllCodeBlocks. rewrite Hp.
  apply forEach_initializeCodeBlock_observed; [done|].
  apply list_elem_of_filter in Hr as [Hm _]. by destruct (matches _ _ _).
Qed.

(** C5.  Running the full scan a second time right after a first run
    changes nothing at all: no button is added, no editor is observed or
    evaluated again. *)
Theorem scan_idempotent s :
  initializeAllCodeBlocks (initializeAllCodeBlocks s)
  = initializeAllCodeBlocks s.
Proof.
  destruct (isCurrentlyEditPage s) eqn:Hp.
  { unfold initializeAllCodeBlocks. by rewrite Hp, Hp. }
  unfold initializeAllCodeBlocks at 1.
  rewrite (sc_edit _ _ (initializeAllCodeBlocks_same_control s)), Hp.
  rewrite (evolves_document_querySelectorAll (doc s))
    by (apply initializeAllCodeBlocks_advances || apply not_button_CM_EDITOR).
  apply forEach_fixed. intros r Hr.
  apply initializeCodeBlock_observed_noop.
  by apply initializeAllCodeBlocks_observes.
Qed.

(** ** Collapsing a tall editor *)

Lemma closest_new_child r d :
  is_Some (lookup_sub d r) →
  matches d CM_EDITOR r = true →
  closest (appendChild_new r expandBtn d) CM_EDITOR (fresh_id d) = Some r.
Proof.
  intros [t (t0 & Ht0 & Et)%lookup_sub_in_forest] Hm.
  unfold closest, ancestors_or_self, path. rewrite forest_append.
  destruct (first_some_is_Some (path_to (fresh_id d))
              (graft r (fresh_id d) <$> forest d) (graft r (fresh_id d) t0))
    as [q Hq].
  { by apply list_elem_of_fmap_2. }
  { apply path_to_graft_fresh_is_Some. eauto. }
  rewrite Hq. simpl.
  apply first_some_Some in Hq as (t1' & Ht1 & Hq).
  apply list_elem_of_fmap in Ht1 as (t1 & -> & Ht1).
  apply path_to_graft_fresh in Hq as [rest ->]; [|by apply fresh_id_forest].
  simpl. rewrite !matches_append by apply not_button_CM_EDITOR.
  by rewrite matches_fresh, Hm.
Qed.

Lemma filter_none {A} (P : A → Prop) `{!∀ x, Decision (P x)} (l : list A) :
  (∀ x, x ∈ l → ¬ P x) → filter P l = [].
Proof.
  induction l as [|x l IH]; intros Hl; [done|].
  rewrite filter_cons_False by (apply Hl; left). apply IH.
  intros y Hy. apply Hl. by right.
Qed.

Lemma elem_of_descendants_graft p b t x :
  x ∈ descendants (graft p b t) → x ∈ descendants t ∨ x = b.
Proof.
  intros Hx. destruct (decide (x = b)) as [|Hne]; [by right|left].
  assert (x ∈ filter (λ y, y ≠ b) (descendants (graft p b t))) as Hf.
  { by apply list_elem_of_filter. }
  rewrite filter_descendants_graft in Hf by (by intros ?).
  by apply list_elem_of_filter in Hf as [_ ?].
Qed.

Lemma child_ids_not_fresh d r x : x ∈ child_ids d r → x ≠ fresh_id d.
Proof.
  intros (t & E & Hx)%child_ids_in_forest ->.
  apply lookup_sub_in_forest in E as (t0 & Ht0 & E).
  apply (fresh_id_forest d t0 Ht0), (find_sub_preorder _ _ _ E).
  apply list_elem_of_fmap in Hx as (k & Hk & Hin).
  destruct t as [n ks]. right. apply list_elem_of_bind. exists k.
  split; [|done]. destruct k. simpl in Hk. rewrite Hk. by left.
Qed.

Lemma descendants_not_fresh d r t x :
  lookup_sub d r = Some t → x ∈ descendants t → x ≠ fresh_id d.
Proof.
  intros E Hx ->.
  apply lookup_sub_in_forest in E as (t0 & Ht0 & E).
  apply (fresh_id_forest d t0 Ht0), (find_sub_preorder _ _ _ E).
  destruct t. by right.
Qed.

Lemma querySelector_None d sel r :
  querySelector d sel r = None → querySelectorAll d sel r = [].
Proof. unfold querySelector. by destruct (querySelectorAll d sel r). Qed.

Lemma nodes_collapsed_page d r p :
  nodes d !! r = Some p →
  nodes (collapsed_page r d) !! r
  = Some (with_height (px COLLAPSED_HEIGHT) (with_id "collapsed" p)).
Proof.
  intros Hp. unfold collapsed_page.
  set (d2 := set_height r _ (set_id r _ d)).
  assert (nodes d2 !! r
          = Some (with_height (px COLLAPSED_HEIGHT) (with_id "collapsed" p)))
    as Hd2.
  { unfold d2. simpl. by rewrite !lookup_alter_eq, Hp. }
  change (nodes (appendChild_new r expandBtn d2))
    with (<[fresh_id d2 := expandBtn]> (nodes d2)).
  rewrite lookup_insert_ne; [done|].
  intros E. by rewrite <-E, fresh_id_nodes in Hd2.
Qed.

Lemma initializeCodeBlock_tall s r :
  matches (doc s) CM_EDITOR r = true →
  r ∉ observedCodeBlocks s →
  querySelector (doc s) CODE_EXPAND_BTN r = None →
  (COLLAPSED_HEIGHT < get_scrollHeight (doc s) r)%Z →
  doc (initializeCodeBlock r s) = collapsed_page r (doc s).
Proof.
  intros Hm Ho Hq Hh. unfold initializeCodeBlock.
  rewrite Hm, bool_decide_false by done. simpl.
  rewrite updateCodeBlock_spec. simpl.
  rewrite Hq, bool_decide_true by done.
  apply Z.ltb_lt in Hh. by rewrite Hh.
Qed.

(** C1, amended.  An editor root of the page that has not been
    initialized, has no toggle button among its descendants yet and whose
    content height exceeds 400 at its evaluation: after its initialization
    one new element [b] has been appended to it, [b] is the only toggle
    button among its children and the only one among its descendants, root
    and button are marked "collapsed", the root's inline height is "400px",
    and a click on [b] resolves to this root. *)
Theorem tall_editor_collapsed s r :
  matches (doc s) CM_EDITOR r = true →
  is_Some (lookup_sub (doc s) r) →
  r ∉ observedCodeBlocks s →
  querySelector (doc s) CODE_EXPAND_BTN r = None →
  (COLLAPSED_HEIGHT < get_scrollHeight (doc s) r)%Z →
  let s' := initializeCodeBlock r s in
  ∃ b,
    child_ids (doc s') r = child_ids (doc s) r ++ [b]
    ∧ filter (λ x, matches (doc s') CODE_EXPAND_BTN x) (child_ids (doc s') r)
      = [b]
    ∧ (∀ x, x ∈ querySelectorAll (doc s') CODE_EXPAND_BTN r ↔ x = b)
    ∧ get_id (doc s') r = "collapsed"
    ∧ get_id (doc s') b = "collapsed"
    ∧ get_height (doc s') r = "400px"
    ∧ closest (doc s') CM_EDITOR b = Some r.
Proof.
  intros Hm [t Ht] Ho Hq Hh. simpl.
  rewrite (initializeCodeBlock_tall s r) by done.
  destruct (matches_is_Some _ _ _ Hm) as [p Hp].
  pose proof (nodes_collapsed_page _ _ _ Hp) as Hr'.
  unfold collapsed_page in *.
  set (d2 := set_height r _ (set_id r _ (doc s))) in *.
  set (b := fresh_id d2). set (d' := appendChild_new r expandBtn d2) in *.
  assert (lookup_sub d2 r = Some t) as Ht2 by done.
  assert (r ≠ b) as Hrb by (by eapply lookup_sub_not_fresh).
  assert (∀ x, matches d2 CODE_EXPAND_BTN x = matches (doc s) CODE_EXPAND_BTN x)
    as Hm2.
  { intros x. unfold d2, set_height, set_id. by rewrite !matches_alter. }
  assert (matches d2 CM_EDITOR r = true) as matches_d2.
  { unfold d2, set_height, set_id. by rewrite !matches_alter. }
  assert (matches d' CODE_EXPAND_BTN b = true) as Hb by apply matches_append_new.
  assert (child_ids d' r = child_ids (doc s) r ++ [b]) as Hc.
  { unfold d'. rewrite child_ids_append, Ht2, decide_True by done. done. }
  assert (∀ x, x ∈ descendants t → matches d' CODE_EXPAND_BTN x = false) as Hold.
  { intros x Hx. unfold d'.
    rewrite matches_append_old by (by eapply descendants_not_fresh).
    rewrite Hm2. apply querySelector_None in Hq.
    unfold querySelectorAll in Hq. rewrite Ht in Hq.
    destruct (matches (doc s) CODE_EXPAND_BTN x) eqn:E; [|done].
    assert (x ∈ filter (λ x, matches (doc s) CODE_EXPAND_BTN x) (descendants t))
      as Hin by (apply list_elem_of_filter; by rewrite E).
    rewrite Hq in Hin. by apply elem_of_nil in Hin. }
  assert (∀ x, x ∈ child_ids (doc s) r → x ∈ descendants t) as Hkids.
  { intros x Hx. unfold child_ids in Hx. rewrite Ht in Hx.
    apply list_elem_of_fmap in Hx as (k & -> & Hk).
    apply list_elem_of_bind. exists k. split; [|done]. destruct k. by left. }
  exists b. split_and!.
  - done.
  - rewrite Hc, filter_app, filter_none.
    + simpl. rewrite filter_cons_True by (by rewrite Hb). done.
    + intros x Hx. rewrite (Hold x) by auto. by intros [].
  - intros x. split.
    + unfold querySelectorAll, d'. rewrite lookup_sub_append, Ht2 by done. simpl.
      intros [Hx Hin]%list_elem_of_filter.
      apply elem_of_descendants_graft in Hin as [Hin|]; [|done].
      fold d' in Hx. rewrite (Hold x Hin) in Hx. by destruct Hx.
    + intros ->. apply child_in_querySelectorAll; [|done].
      rewrite Hc. apply elem_of_app. right. by left.
  - unfold get_id. by rewrite Hr'.
  - unfold get_id, d'. simpl. by rewrite lookup_insert_eq.
  - unfold get_height. by rewrite Hr'.
  - apply closest_new_child; [by exists t|]. by rewrite matches_d2.
Qed.

(** ** Pages of the same shape *)

Global Instance same_shape_preorder : PreOrder same_shape.
Proof.
  split.
  - intros d. by repeat split.
  - intros d1 d2 d3 (F1 & M1 & E1) (F2 & M2 & E2). repeat split.
    + congruence.
    + intros. by rewrite M2, M1.
    + intros. by rewrite E2, E1.
Qed.

Lemma same_shape_set_id n v d : same_shape d (set_id n v d).
Proof.
  repeat split; intros; [by apply matches_alter | by apply is_element_alter].
Qed.

Lemma same_shape_set_height n v d : same_shape d (set_height n v d).
Proof.
  repeat split; intros; [by apply matches_alter | by apply is_element_alter].
Qed.

Lemma same_shape_querySelectorAll d d' sel n :
  same_shape d d' → querySelectorAll d' sel n = querySelectorAll d sel n.
Proof.
  intros (F & M & _). unfold querySelectorAll, lookup_sub. rewrite F.
  destruct (first_some _ _); [|done]. by apply filter_matches_ext.
Qed.

Lemma find_ext_all {A} (f g : A → bool) l :
  (∀ x, f x = g x) → List.find f l = List.find g l.
Proof.
  intros H. induction l as [|x l IH]; simpl; [done|]. by rewrite H, IH.
Qed.

Lemma same_shape_closest d d' sel n :
  same_shape d d' → closest d' sel n = closest d sel n.
Proof.
  intros (F & M & _). unfold closest, ancestors_or_self, path. rewrite F.
  apply find_ext_all. intros. apply M.
Qed.

Lemma closest_matches d sel n r :
  closest d sel n = Some r → matches d sel r = true.
Proof. intros H. by apply find_some in H as [_ ?]. Qed.

Lemma get_id_set_id d n v x :
  get_id (set_id n v d) x
  = if decide (n = x)
    then match nodes d !! x with Some _ => v | None => "" end
    else get_id d x.
Proof.
  unfold get_id, set_id. simpl. rewrite lookup_alter.
  case_decide; [subst|done]. by destruct (nodes d !! x).
Qed.

Lemma get_id_set_height d n v x : get_id (set_height n v d) x = get_id d x.
Proof.
  unfold get_id, set_height. simpl. rewrite lookup_alter.
  case_decide; [subst|done]. by destruct (nodes d !! x).
Qed.

Lemma get_height_set_id d n v x : get_height (set_id n v d) x = get_height d x.
Proof.
  unfold get_height, set_id. simpl. rewrite lookup_alter.
  case_decide; [subst|done]. by destruct (nodes d !! x).
Qed.

Lemma get_height_set_height d n v x :
  get_height (set_height n v d) x
  = if decide (n = x)
    then match nodes d !! x with Some _ => v | None => "" end
    else get_height d x.
Proof.
  unfold get_height, set_height. simpl. rewrite lookup_alter.
  case_decide; [subst|done]. by destruct (nodes d !! x).
Qed.

Lemma nodes_set_id_is_Some d n v x :
  is_Some (nodes (set_id n v d) !! x) ↔ is_Some (nodes d !! x).
Proof.
  unfold set_id. simpl. rewrite lookup_alter.
  case_decide; [subst|done]. by rewrite fmap_is_Some.
Qed.

Lemma nodes_set_height_is_Some d n v x :
  is_Some (nodes (set_height n v d) !! x) ↔ is_Some (nodes d !! x).
Proof.
  unfold set_height. simpl. rewrite lookup_alter.
  case_decide; [subst|done]. by rewrite fmap_is_Some.
Qed.

(** The page after the three assignments of one branch of the toggle. *)
Lemma toggled_page d r b h m :
  is_Some (nodes d !! r) → is_Some (nodes d !! b) →
  let d' := set_id b m (set_id r m (set_height r h d)) in
  get_id d' r = m ∧ get_id d' b = m ∧ get_height d' r = h ∧ same_shape d d'.
Proof.
  intros Hr Hb. simpl.
  assert (∀ x, is_Some (nodes d !! x) →
               is_Some (nodes (set_height r h d) !! x)) as H1.
  { intros x. by rewrite nodes_set_height_is_Some. }
  assert (∀ x, is_Some (nodes d !! x) →
               is_Some (nodes (set_id r m (set_height r h d)) !! x)) as H2.
  { intros x ?. rewrite nodes_set_id_is_Some. auto. }
  split_and!.
  - rewrite !get_id_set_id.
    destruct (H2 r Hr) as [? ->], (H1 r Hr) as [? ->].
    rewrite (decide_True (P:=r = r)) by done. by case_decide.
  - rewrite get_id_set_id. destruct (H2 b Hb) as [? ->].
    by rewrite decide_True.
  - rewrite !get_height_set_id, get_height_set_height.
    destruct Hr as [? ->]. by rewrite decide_True.
  - etrans; [apply same_shape_set_height|].
    etrans; [apply same_shape_set_id|]. apply same_shape_set_id.
Qed.

(** ** The click listener and the deferred toggle *)

Lemma matches_is_element d sel x : matches d sel x = true → is_element d x = true.
Proof.
  unfold matches, is_element. destruct (nodes d !! x); [|done].
  by intros [? _]%andb_true_iff.
Qed.

Lemma clickListener_button s r b :
  matches (doc s) CODE_EXPAND_BTN b = true →
  closest (doc s) CM_EDITOR b = Some r →
  clickListener b s
  = Ok (with_frameQueue
          (frameQueue s ++
             [Callback r b (String.eqb (get_id (doc s) r) "collapsed")]) s).
Proof.
  intros Hb Hr. unfold clickListener.
  by rewrite (matches_is_element _ _ _ Hb), Hb, Hr.
Qed.

Lemma with_frameQueue_reset q s :
  frameQueue s = [] → with_frameQueue [] (with_frameQueue q s) = s.
Proof. destruct s. simpl. by intros ->. Qed.

Lemma click_then_frame s r b :
  frameQueue s = [] →
  matches (doc s) CODE_EXPAND_BTN b = true →
  closest (doc s) CM_EDITOR b = Some r →
  run [Click b; AnimationFrame] s
  = toggle (Callback r b (String.eqb (get_id (doc s) r) "collapsed")) s.
Proof.
  intros Hq Hb Hr. unfold run, forEach. simpl.
  rewrite (clickListener_button s r b Hb Hr), Hq. unfold animationFrame. simpl.
  unfold forEach. simpl. by rewrite with_frameQueue_reset.
Qed.

Lemma toggle_expand s r b :
  toggle (Callback r b true) s
  = with_doc (set_id b "expanded"
                (set_id r "expanded"
                   (set_height r (full_height (doc s) r) (doc s)))) s.
Proof. done. Qed.

Lemma toggle_collapse_doc s r b :
  doc (toggle (Callback r b false) s)
  = set_id b "collapsed"
      (set_id r "collapsed" (set_height r (px COLLAPSED_HEIGHT) (doc s))).
Proof. unfold toggle. simpl. by destruct (_ ≫= _). Qed.

Lemma toggle_frameQueue cb s : frameQueue (toggle cb s) = frameQueue s.
Proof.
  unfold toggle. destruct (cb_isCollapsed cb); simpl; [done|].
  by destruct (_ ≫= _).
Qed.

(** C2.  A collapsed editor root [r] whose toggle button is [b]: one click
    (with the animation frame that follows it) marks root and button
    "expanded" and sets the root's inline height to the measured full
    height; a second click and frame mark both "collapsed" again and set
    the inline height to "400px".  The root's marker is back at its
    original value. *)
Theorem toggle_round_trip s r b :
  frameQueue s = [] →
  matches (doc s) CODE_EXPAND_BTN b = true →
  closest (doc s) CM_EDITOR b = Some r →
  get_id (doc s) r = "collapsed" →
  let s1 := run [Click b; AnimationFrame] s in
  let s2 := run [Click b; AnimationFrame] s1 in
  (get_id (doc s1) r = "expanded"
   ∧ get_id (doc s1) b = "expanded"
   ∧ get_height (doc s1) r = full_height (doc s) r)
  ∧ (get_id (doc s2) r = "collapsed"
     ∧ get_id (doc s2) b = "collapsed"
     ∧ get_height (doc s2) r = "400px"
     ∧ get_id (doc s2) r = get_id (doc s) r).
Proof.
  intros Hq Hb Hr Hid s1 s2. subst s1 s2.
  pose proof (matches_is_Some _ _ _ Hb) as HSb.
  pose proof (matches_is_Some _ _ _ (closest_matches _ _ _ _ Hr)) as HSr.
  rewrite (click_then_frame s r b Hq Hb Hr), Hid. simpl String.eqb.
  rewrite toggle_expand.
  set (s1 := with_doc _ s).
  destruct (toggled_page (doc s) r b (full_height (doc s) r) "expanded" HSr HSb)
    as (Hr1 & Hb1 & Hh1 & Hshape).
  change (get_id (doc s1) r = "expanded") in Hr1.
  change (get_id (doc s1) b = "expanded") in Hb1.
  change (get_height (doc s1) r = full_height (doc s) r) in Hh1.
  change (same_shape (doc s) (doc s1)) in Hshape.
  assert (matches (doc s1) CODE_EXPAND_BTN b = true) as Hb'.
  { destruct Hshape as (_ & M & _). by rewrite M. }
  assert (closest (doc s1) CM_EDITOR b = Some r) as Hr'.
  { by rewrite (same_shape_closest (doc s)). }
  split; [done|].
  rewrite (click_then_frame s1 r b Hq Hb' Hr'), Hr1. simpl String.eqb.
  rewrite toggle_collapse_doc.
  destruct (toggled_page (doc s1) r b (px COLLAPSED_HEIGHT) "collapsed")
    as (Hr2 & Hb2 & Hh2 & _).
  { by eapply matches_is_Some, closest_matches. }
  { by eapply matches_is_Some. }
  done.
Qed.

Lemma animationFrame_single s cb :
  frameQueue s = [] →
  animationFrame (with_frameQueue (frameQueue s ++ [cb]) s) = toggle cb s.
Proof.
  intros Hq. rewrite Hq. unfold animationFrame, forEach. simpl.
  by rewrite with_frameQueue_reset.
Qed.

Lemma toggle_collapse_no_container s r b :
  closest (doc s) MESSAGE_CONTAINER r = None →
  toggle (Callback r b false) s
  = with_doc (set_id b "collapsed"
                (set_id r "collapsed"
                   (set_height r (px COLLAPSED_HEIGHT) (doc s)))) s.
Proof.
  intros Hc. unfold toggle. simpl.
  rewrite (same_shape_closest (doc s)), Hc; [done|].
  etrans; [apply same_shape_set_height|].
  etrans; [apply same_shape_set_id|]. apply same_shape_set_id.
Qed.

(** C9.  A click on a toggle button [b] of editor root [r] never throws,
    and the deferred update completes with its fallback when the expected
    sub-elements are missing: expanding a root without an inner
    ".cm-scroller" sets the inline height to "auto" and marks root and
    button "expanded"; collapsing a root without an enclosing
    ".relative.my-2" container sets the height to "400px", marks both
    "collapsed" and issues no scroll request. *)
Theorem toggle_fallbacks s r b :
  frameQueue s = [] →
  matches (doc s) CODE_EXPAND_BTN b = true →
  closest (doc s) CM_EDITOR b = Some r →
  ∃ s1, clickListener b s = Ok s1 ∧
    let s2 := animationFrame s1 in
    (get_id (doc s) r = "collapsed" →
     querySelector (doc s) CM_SCROLLER r = None →
     get_height (doc s2) r = "auto"
     ∧ get_id (doc s2) r = "expanded"
     ∧ get_id (doc s2) b = "expanded"
     ∧ trace s2 = trace s)
    ∧ (get_id (doc s) r ≠ "collapsed" →
       closest (doc s) MESSAGE_CONTAINER r = None →
       get_height (doc s2) r = "400px"
       ∧ get_id (doc s2) r = "collapsed"
       ∧ get_id (doc s2) b = "collapsed"
       ∧ trace s2 = trace s).
Proof.
  intros Hq Hb Hr.
  pose proof (matches_is_Some _ _ _ Hb) as HSb.
  pose proof (matches_is_Some _ _ _ (closest_matches _ _ _ _ Hr)) as HSr.
  eexists. split; [by apply clickListener_button|].
  cbv zeta. rewrite animationFrame_single by done. split.
  - intros Hid Hsc. rewrite Hid. simpl String.eqb. rewrite toggle_expand.
    unfold full_height. rewrite Hsc.
    destruct (toggled_page (doc s) r b "auto" "expanded" HSr HSb)
      as (? & ? & ? & _).
    by split_and!.
  - intros Hid Hc. apply String.eqb_neq in Hid. rewrite Hid.
    rewrite toggle_collapse_no_container by done.
    destruct (toggled_page (doc s) r b (px COLLAPSED_HEIGHT) "collapsed" HSr HSb)
      as (? & ? & ? & _).
    by split_and!.
Qed.

(** ** The toggle is independent of the route mode *)

Lemma toggle_with_isCurrentlyEditPage f cb s :
  toggle cb (with_isCurrentlyEditPage f s)
  = with_isCurrentlyEditPage f (toggle cb s).
Proof.
  unfold toggle. destruct (cb_isCollapsed cb); simpl; [done|].
  by destruct (_ ≫= _).
Qed.

Lemma forEach_toggle_with_isCurrentlyEditPage f q s :
  forEach toggle q (with_isCurrentlyEditPage f s)
  = with_isCurrentlyEditPage f (forEach toggle q s).
Proof.
  revert s. induction q as [|cb q IH]; intros s; [done|].
  by rewrite !forEach_cons, toggle_with_isCurrentlyEditPage, IH.
Qed.

Lemma clickListener_with_isCurrentlyEditPage f target s :
  clickListener target (with_isCurrentlyEditPage f s)
  = result_map (with_isCurrentlyEditPage f) (clickListener target s).
Proof.
  unfold clickListener. simpl.
  destruct (negb _); [done|]. destruct (negb _); [done|].
  by destruct (closest _ _ _).
Qed.

Lemma animationFrame_with_isCurrentlyEditPage f s :
  animationFrame (with_isCurrentlyEditPage f s)
  = with_isCurrentlyEditPage f (animationFrame s).
Proof.
  unfold animationFrame. simpl.
  apply (forEach_toggle_with_isCurrentlyEditPage f _ (with_frameQueue [] s)).
Qed.

(** C10.  The click listener and the deferred toggle never read the route
    flag: started from two states that differ only in
    [isCurrentlyEditPage], a click (throwing or not) and the following
    animation frame end in two states that again differ only in that
    flag. *)
Theorem click_not_gated_by_route f target s :
  clickListener target (with_isCurrentlyEditPage f s)
  = result_map (with_isCurrentlyEditPage f) (clickListener target s)
  ∧ animationFrame (with_isCurrentlyEditPage f s)
    = with_isCurrentlyEditPage f (animationFrame s)
  ∧ run [Click target; AnimationFrame] (with_isCurrentlyEditPage f s)
    = with_isCurrentlyEditPage f (run [Click target; AnimationFrame] s).
Proof.
  split_and!.
  - apply clickListener_with_isCurrentlyEditPage.
  - apply animationFrame_with_isCurrentlyEditPage.
  - unfold run, forEach. simpl.
    rewrite clickListener_with_isCurrentlyEditPage.
    destruct (clickListener target s); simpl;
      apply animationFrame_with_isCurrentlyEditPage.
Qed.

(** ** Every event only lets the page evolve *)

Lemma advances_with_doc s d :
  evolves (doc s) d → advances s (with_doc d s).
Proof. by split. Qed.

Lemma toggle_advances cb s : advances s (toggle cb s).
Proof.
  assert (∀ r b h m,
    evolves (doc s) (set_id b m (set_id r m (set_height r h (doc s))))) as H.
  { intros. eapply rtc_l; [apply mutates_set_height|].
    eapply rtc_l; [apply mutates_set_id|]. apply rtc_once, mutates_set_id. }
  unfold toggle. destruct (cb_isCollapsed cb).
  - by apply advances_with_doc.
  - simpl. destruct (_ ≫= _); split; simpl; auto.
Qed.

Lemma animationFrame_advances s : advances s (animationFrame s).
Proof.
  unfold animationFrame. trans (with_frameQueue [] s); [by split|].
  apply (forEach_preorder advances); apply toggle_advances.
Qed.

Lemma clickListener_advances target s s' :
  clickListener target s = Ok s' → advances s s'.
Proof.
  unfold clickListener. destruct (negb _); [done|].
  destruct (negb _); [by intros [= <-]|].
  destruct (closest _ _ _); intros [= <-]; by split.
Qed.

Lemma resizeCallback_advances entries s : advances s (resizeCallback entries s).
Proof.
  unfold resizeCallback. destruct (isCurrentlyEditPage s); [done|].
  apply (forEach_preorder advances). intros r s0.
  destruct (matches _ _ _); [apply updateCodeBlock_advances | done].
Qed.

Lemma addedNode_advances node s : advances s (addedNode node s).
Proof.
  unfold addedNode. destruct (negb _); [done|].
  destruct (matches _ _ _).
  - apply initializeCodeBlock_advances.
  - apply forEach_initializeCodeBlock_advances.
Qed.

Lemma mutationCallback_advances ms s : advances s (mutationCallback ms s).
Proof.
  unfold mutationCallback. destruct (isCurrentlyEditPage s); [done|].
  apply (forEach_preorder advances). intros m s0.
  apply (forEach_preorder advances). apply addedNode_advances.
Qed.

Lemma onRouteChange_advances s : advances s (onRouteChange s).
Proof.
  unfold onRouteChange.
  set (s1 := with_isCurrentlyEditPage _ s).
  assert (advances s s1) as H1 by (by split).
  destruct (isCurrentlyEditPage s1).
  - destruct (mutationObserverActive s1); [|done].
    etrans; [apply H1|]. by split.
  - etrans; [apply H1|].
    pose proof (initializeAllCodeBlocks_advances s1) as [].
    destruct (mutationObserverActive _); by split.
Qed.

Lemma init_advances s : advances s (init s).
Proof.
  unfold init.
  set (s1 := with_isCurrentlyEditPage _ s).
  assert (advances s s1) as H1 by (by split).
  destruct (negb _); [|done].
  etrans; [apply H1|].
  pose proof (initializeAllCodeBlocks_advances s1) as []. by split.
Qed.

Lemma step_advances e s : advances s (step e s).
Proof.
  destruct e; simpl.
  - etrans; [|apply onRouteChange_advances]. by split.
  - etrans; [|apply onRouteChange_advances]. by split.
  - apply init_advances.
  - apply resizeCallback_advances.
  - apply mutationCallback_advances.
  - destruct (clickListener _ _) eqn:E; [|done].
    by eapply clickListener_advances.
  - apply animationFrame_advances.
  - apply advances_with_doc, rtc_once, mutates_set_scrollHeight.
  - by split.
  - done.
Qed.

Lemma run_advances es s : advances s (run es s).
Proof. apply (forEach_preorder advances), step_advances. Qed.

(** C7.  Once a toggle button [b] is attached to an editor root [r], no
    sequence of events (navigation, initialization, size-change and
    structural reactions, clicks, animation frames, or the content being
    measured anew, for instance after it shrank) removes it: [b] stays a
    child of [r] and a toggle button, the root never looks button-less to
    the script again, and re-evaluating the root does nothing. *)
Theorem toggle_button_never_removed es s r b :
  b ∈ child_ids (doc s) r →
  matches (doc s) CODE_EXPAND_BTN b = true →
  let s' := run es s in
  b ∈ child_ids (doc s') r
  ∧ matches (doc s') CODE_EXPAND_BTN b = true
  ∧ querySelector (doc s') CODE_EXPAND_BTN r ≠ None
  ∧ updateCodeBlock r s' = s'.
Proof.
  intros Hc Hm s'.
  pose proof (adv_doc _ _ (run_advances es s)) as Hev. fold s' in Hev.
  assert (b ∈ child_ids (doc s') r) as Hc' by (by eapply evolves_child_ids).
  assert (matches (doc s') CODE_EXPAND_BTN b = true) as Hm'
    by (by eapply evolves_matches_mono).
  assert (querySelector (doc s') CODE_EXPAND_BTN r ≠ None) as Hq.
  { intros Hq%querySelector_None.
    pose proof (child_in_querySelectorAll _ _ _ _ Hc' Hm') as Hin.
    rewrite Hq in Hin. by apply elem_of_nil in Hin. }
  split_and!; [done..|].
  unfold updateCodeBlock. by destruct (querySelector _ _ _).
Qed.

(** ** Route change detection *)

Lemma initializeAllCodeBlocks_fixed s :
  (∀ r, r ∈ document_querySelectorAll (doc s) CM_EDITOR →
        r ∈ observedCodeBlocks s) →
  initializeAllCodeBlocks s = s.
Proof.
  intros H. unfold initializeAllCodeBlocks.
  destruct (isCurrentlyEditPage s); [done|].
  apply forEach_fixed. intros r Hr. by apply initializeCodeBlock_observed_noop, H.
Qed.

Lemma initializeAllCodeBlocks_covers s r :
  isCurrentlyEditPage s = false →
  r ∈ document_querySelectorAll (doc (initializeAllCodeBlocks s)) CM_EDITOR →
  r ∈ observedCodeBlocks (initializeAllCodeBlocks s).
Proof.
  intros Hp Hr. apply initializeAllCodeBlocks_observes; [done|].
  by rewrite (evolves_document_querySelectorAll (doc s)) in Hr
    by (apply initializeAllCodeBlocks_advances || apply not_button_CM_EDITOR).
Qed.

Lemma onRouteChange_settled s :
  mutationObserverActive s = negb (isCurrentlyEditPage s) →
  checkIsEditPage s = isCurrentlyEditPage s →
  (isCurrentlyEditPage s = false →
   ∀ r, r ∈ document_querySelectorAll (doc s) CM_EDITOR →
        r ∈ observedCodeBlocks s) →
  onRouteChange s = s.
Proof.
  intros Ha Hc Hcov. unfold onRouteChange. rewrite Hc.
  assert (with_isCurrentlyEditPage (isCurrentlyEditPage s) s = s) as ->
    by (by destruct s).
  destruct (isCurrentlyEditPage s) eqn:Hp.
  - by rewrite Ha.
  - rewrite initializeAllCodeBlocks_fixed by auto. by rewrite Ha.
Qed.

Lemma onRouteChange_result s :
  let s' := onRouteChange s in
  mutationObserverActive s' = negb (isCurrentlyEditPage s')
  ∧ isCurrentlyEditPage s' = checkIsEditPage s
  ∧ href s' = href s
  ∧ (isCurrentlyEditPage s' = false →
     ∀ r, r ∈ document_querySelectorAll (doc s') CM_EDITOR →
          r ∈ observedCodeBlocks s').
Proof.
  unfold onRouteChange. cbv zeta.
  change (isCurrentlyEditPage (with_isCurrentlyEditPage _ s))
    with (checkIsEditPage s).
  destruct (checkIsEditPage s) eqn:Hp.
  - change (mutationObserverActive (with_isCurrentlyEditPage true s))
      with (mutationObserverActive s).
    destruct (mutationObserverActive s) eqn:Ha; simpl; by rewrite ?Ha.
  - set (s1 := with_isCurrentlyEditPage false s).
    pose proof (initializeAllCodeBlocks_same_control s1) as [Hh He Hact _ _ _].
    pose proof (initializeAllCodeBlocks_covers s1) as Hcov.
    change (isCurrentlyEditPage s1) with false in He.
    destruct (mutationObserverActive _) eqn:Ha; simpl.
    + rewrite Ha, He. split_and!; auto.
    + rewrite He. split_and!; auto.
Qed.

Lemma onRouteChange_observer s :
  mutationObserverActive s = observer_attached (trace s) →
  let s' := onRouteChange s in
  mutationObserverActive s' = observer_attached (trace s')
  ∧ (well_bracketed (trace s) = true → well_bracketed (trace s') = true).
Proof.
  intros Hinv. unfold onRouteChange. set (s1 := with_isCurrentlyEditPage _ s).
  destruct (isCurrentlyEditPage s1).
  - change (mutationObserverActive s1) with (mutationObserverActive s).
    destruct (mutationObserverActive s) eqn:Ha; simpl.
    + split; [done|]. intros ->. by rewrite <-Hinv.
    + split; [congruence | done].
  - pose proof (initializeAllCodeBlocks_same_control s1) as [_ _ Hact _ Hatt Hbr].
    simpl in Hact, Hatt, Hbr.
    destruct (mutationObserverActive (initializeAllCodeBlocks s1)) eqn:Ha.
    + rewrite Ha, Hatt, Hbr. split; [congruence | done].
    + simpl. rewrite Hatt, Hbr. split; [done|]. intros ->.
      by rewrite <-Hinv, <-Hact.
Qed.

(** ** The structural-change reaction *)

Lemma mutates_added_targets d d' n :
  mutates d d' → added_targets d' n = added_targets d n.
Proof.
  intros H. unfold added_targets.
  rewrite (mutates_matches d d') by auto with page.
  rewrite (mutates_querySelectorAll d d') by auto with page.
  destruct (is_element d n) eqn:E.
  { by rewrite (mutates_is_element_mono d d'). }
  destruct (is_element d' n) eqn:E'; [|done]. simpl.
  destruct H as [m f d Hty Hcl | p d].
  { by rewrite is_element_alter, E in E'. }
  assert (n = fresh_id d) as ->.
  { destruct (decide (n = fresh_id d)) as [|Hn]; [done|].
    unfold is_element in E, E'. simpl in E'.
    rewrite lookup_insert_ne in E' by done. congruence. }
  rewrite matches_fresh. unfold querySelectorAll. by rewrite lookup_sub_fresh.
Qed.

Lemma evolves_added_targets d d' n :
  evolves d d' → added_targets d' n = added_targets d n.
Proof.
  induction 1 as [|d1 d2 d3 H _ IH]; [done|].
  rewrite IH. by apply mutates_added_targets.
Qed.

Lemma addedNode_targets node s :
  addedNode node s
  = forEach initializeCodeBlock (added_targets (doc s) node) s.
Proof.
  unfold addedNode, added_targets. destruct (negb _); [done|].
  by destruct (matches _ _ _).
Qed.

Lemma forEach_addedNode_targets nodes s :
  forEach addedNode nodes s
  = forEach initializeCodeBlock (nodes ≫= added_targets (doc s)) s.
Proof.
  revert s. induction nodes as [|n nodes IH]; intros s; [done|].
  rewrite forEach_cons, bind_cons, forEach_app, IH, addedNode_targets.
  f_equal. apply list_bind_ext; [|done]. intros x.
  apply evolves_added_targets, forEach_initializeCodeBlock_advances.
Qed.

Lemma mutationCallback_targets ms s :
  isCurrentlyEditPage s = false →
  mutationCallback ms s
  = forEach initializeCodeBlock (batch_targets (doc s) ms) s.
Proof.
  intros Hp. unfold mutationCallback, batch_targets. rewrite Hp. clear Hp.
  revert s. induction ms as [|m ms IH]; intros s; [done|].
  rewrite forEach_cons, bind_cons, forEach_app, IH, forEach_addedNode_targets.
  f_equal. apply list_bind_ext; [|done]. intros m'.
  apply list_bind_ext; [|done]. intros x.
  apply evolves_added_targets, forEach_initializeCodeBlock_advances.
Qed.

Global Instance counted_preorder r : PreOrder (counted r).
Proof.
  split.
  - intros s. split; [done|]. rewrite decide_False by tauto. lia.
  - intros s1 s2 s3 [H12 E12] [H23 E23]. split; [by etrans|].
    rewrite E23, E12.
    pose proof (H12 r) as I12. pose proof (H23 r) as I23.
    destruct (decide (r ∈ observedCodeBlocks s1)).
    { rewrite !decide_False by tauto. lia. }
    destruct (decide (r ∈ observedCodeBlocks s2)).
    { rewrite (decide_True (P:=_ ∧ r ∉ observedCodeBlocks s1)) by tauto.
      rewrite (decide_True (P:=_ ∧ r ∉ observedCodeBlocks s1)) by tauto.
      rewrite decide_False by tauto. lia. }
    rewrite (decide_False (P:=r ∈ observedCodeBlocks s2 ∧ _)) by tauto.
    destruct (decide (r ∈ observedCodeBlocks s3)).
    + rewrite !decide_True by tauto. lia.
    + rewrite !decide_False by tauto. lia.
Qed.

Lemma initializeCodeBlock_counted r x s : counted r s (initializeCodeBlock x s).
Proof.
  unfold initializeCodeBlock.
  destruct (_ || _) eqn:G; [reflexivity|].
  apply orb_false_iff in G as [Hx%bool_decide_eq_false _].
  split.
  - rewrite updateCodeBlock_observed. simpl. set_solver.
  - rewrite updateCodeBlock_trace, updateCodeBlock_observed.
    change (trace (emit ?c ?s0)) with (c :: trace s) at 1.
    change (observedCodeBlocks (emit ?c ?s0)) with ({[x]} ∪ observedCodeBlocks s).
    unfold observes.
    destruct (decide (x = r)) as [->|Hne].
    + rewrite count_occ_cons_eq by done.
      rewrite decide_True; [lia|].
      split; [apply elem_of_union_l, elem_of_singleton|]; done.
    + rewrite count_occ_cons_neq by congruence.
      rewrite decide_False; [lia|]. intros [Hin Hout].
      apply elem_of_union in Hin as [Hin%elem_of_singleton|]; [|done].
      by apply Hne.
Qed.

Lemma forEach_initializeCodeBlock_counted r l s :
  counted r s (forEach initializeCodeBlock l s).
Proof. apply (forEach_preorder (counted r)), initializeCodeBlock_counted. Qed.

Lemma forEach_initializeCodeBlock_once r l s :
  r ∈ l →
  matches (doc s) CM_EDITOR r = true →
  r ∉ observedCodeBlocks s →
  let s' := forEach initializeCodeBlock l s in
  r ∈ observedCodeBlocks s'
  ∧ observes r (trace s') = S (observes r (trace s)).
Proof.
  intros Hr Hm Ho s'.
  assert (r ∈ observedCodeBlocks s') as Ho'
    by (by apply forEach_initializeCodeBlock_observed).
  split; [done|].
  destruct (forEach_initializeCodeBlock_counted r l s) as [_ E].
  fold s' in E. rewrite E, decide_True by done. lia.
Qed.


(** ** The observer flag along whole runs *)

Global Instance observer_untouched_preorder : PreOrder observer_untouched.
Proof.
  split.
  - intros s. by split.
  - intros s1 s2 s3 [] []. split; congruence.
Qed.

Lemma same_control_observer_untouched s s' :
  same_control s s' → observer_untouched s s'.
Proof. intros []. by split. Qed.

Lemma toggle_observer_untouched cb s : observer_untouched s (toggle cb s).
Proof.
  unfold toggle. destruct (cb_isCollapsed cb); [by split|].
  simpl. by destruct (_ ≫= _).
Qed.

Lemma step_observer_untouched e s :
  quiet e → observer_untouched s (step e s).
Proof.
  destruct e; simpl; [done..| | | | | | |]; intros _.
  - unfold resizeCallback. destruct (isCurrentlyEditPage s); [done|].
    apply (forEach_preorder observer_untouched). intros r s0.
    destruct (matches _ _ _); [|done].
    apply same_control_observer_untouched, updateCodeBlock_same_control.
  - unfold mutationCallback. destruct (isCurrentlyEditPage s); [done|].
    apply (forEach_preorder observer_untouched). intros m s0.
    apply (forEach_preorder observer_untouched). intros n s1.
    rewrite addedNode_targets.
    apply same_control_observer_untouched,
      forEach_initializeCodeBlock_same_control.
  - unfold clickListener. destruct (negb _); [done|].
    destruct (negb _); [done|]. by destruct (closest _ _ _).
  - unfold animationFrame. trans (with_frameQueue [] s); [by split|].
    apply (forEach_preorder observer_untouched), toggle_observer_untouched.
  - by split.
  - by split.
  - done.
Qed.

(** Whatever happens, the flag tells whether the observer is attached. *)
Lemma step_observer_flag e s :
  mutationObserverActive s = observer_attached (trace s) →
  mutationObserverActive (step e s) = observer_attached (trace (step e s)).
Proof.
  intros Hinv. pose proof (step_observer_untouched e s) as H.
  destruct e; try (destruct H; [done|]; congruence).
  - by apply (onRouteChange_observer (with_href url s)).
  - by apply (onRouteChange_observer (with_href url s)).
  - simpl. unfold init. simpl. by destruct (negb _).
Qed.

Lemma run_quiet_untouched es s :
  Forall quiet es → observer_untouched s (run es s).
Proof.
  intros Hes. revert s. induction Hes as [|e es He _ IH]; intros s; [done|].
  trans (step e s); [by apply step_observer_untouched | apply IH].
Qed.

Lemma run_observer_flag es s :
  mutationObserverActive s = observer_attached (trace s) →
  mutationObserverActive (run es s) = observer_attached (trace (run es s)).
Proof.
  revert s. induction es as [|e es IH]; intros s Hinv; [done|].
  apply (IH (step e s)), step_observer_flag, Hinv.
Qed.

(** After the initial [init], no run of events calls [observe] on an
    attached observer or [disconnect] on a detached one. *)
Lemma run_well_bracketed es s :
  DOMContentLoaded ∉ es →
  mutationObserverActive s = observer_attached (trace s) →
  well_bracketed (trace s) = true →
  well_bracketed (trace (run es s)) = true.
Proof.
  revert s. induction es as [|e es IH]; intros s Hes Hinv Hwb; [done|].
  apply not_elem_of_cons in Hes as [He Hes].
  apply (IH (step e s)); [done | by apply step_observer_flag |].
  pose proof (step_observer_untouched e s) as H.
  destruct e; try (destruct H; [done|]; congruence).
  - by apply (onRouteChange_observer (with_href url s)).
  - by apply (onRouteChange_observer (with_href url s)).
Qed.

Lemma init_loaded_observer url d :
  let s := init (loaded url d) in
  mutationObserverActive s = observer_attached (trace s)
  ∧ well_bracketed (trace s) = true.
Proof.
  unfold init. simpl. destruct (negb _) eqn:E; [|done]. simpl.
  pose proof (initializeAllCodeBlocks_same_control
                (with_isCurrentlyEditPage
                   (checkIsEditPage (loaded url d)) (loaded url d)))
    as [_ _ _ _ Hatt Hbr].
  simpl in Hatt, Hbr. by rewrite Hatt, Hbr.
Qed.

Lemma navigate_same_mode u s :
  mutationObserverActive s = negb (isCurrentlyEditPage s) →
  includes EDIT_PAGE_IDENTIFIER u = isCurrentlyEditPage s →
  navigate u s = initializeAllCodeBlocks (with_href u s).
Proof.
  intros Ha Hu. unfold navigate, onRouteChange, checkIsEditPage. cbv zeta.
  change (href (with_href u s)) with u. rewrite Hu.
  assert (with_isCurrentlyEditPage (isCurrentlyEditPage s) (with_href u s)
          = with_href u s) as -> by (by destruct s).
  change (isCurrentlyEditPage (with_href u s)) with (isCurrentlyEditPage s).
  destruct (isCurrentlyEditPage s) eqn:Hp.
  - change (mutationObserverActive (with_href u s))
      with (mutationObserverActive s).
    rewrite Ha. unfold initializeAllCodeBlocks.
    change (isCurrentlyEditPage (with_href u s)) with (isCurrentlyEditPage s).
    by rewrite Hp.
  - rewrite (sc_active _ _ (initializeAllCodeBlocks_same_control _)).
    change (mutationObserverActive (with_href u s))
      with (mutationObserverActive s).
    by rewrite Ha.
Qed.

(** C8.  Route change detection keeps the observer-active flag equal to the
    attachment state of the MutationObserver, never calls [observe] while
    it is attached nor [disconnect] while it is detached, and is
    idempotent: a further navigation that stays in the same route mode
    changes nothing but the URL (the scan it runs finds every editor
    tracked and the observer is neither attached nor detached again); and
    when other reactions ran in between, such a navigation does what the
    full scan does and nothing else. *)
Theorem route_change_idempotent s u :
  mutationObserverActive s = observer_attached (trace s) →
  well_bracketed (trace s) = true →
  let s' := navigate u s in
  mutationObserverActive s' = observer_attached (trace s')
  ∧ well_bracketed (trace s') = true
  ∧ (∀ u', includes EDIT_PAGE_IDENTIFIER u' = includes EDIT_PAGE_IDENTIFIER u →
           navigate u' s' = with_href u' s')
  ∧ (∀ es u', Forall quiet es →
              includes EDIT_PAGE_IDENTIFIER u' = includes EDIT_PAGE_IDENTIFIER u →
              navigate u' (run es s')
              = initializeAllCodeBlocks (with_href u' (run es s'))).
Proof.
  intros Hinv Hwb s'.
  destruct (onRouteChange_observer (with_href u s) Hinv) as [Hinv' Hwb'].
  destruct (onRouteChange_result (with_href u s)) as (Ha & Hp & _ & Hcov).
  fold (navigate u s) in Ha, Hp, Hcov. fold s' in Ha, Hp, Hcov.
  split_and!; [done | by apply Hwb' | |].
  - intros u' Hu. unfold navigate at 1.
    apply onRouteChange_settled; [done | | done].
    unfold checkIsEditPage. simpl. by rewrite Hu, Hp.
  - intros es u' Hes Hu.
    destruct (run_quiet_untouched es s' Hes) as [He Hact _ _].
    apply navigate_same_mode; [by rewrite Hact, He|].
    by rewrite Hu, He, Hp.
Qed.

Lemma onRouteChange_href s : href (onRouteChange s) = href s.
Proof. by destruct (onRouteChange_result s) as (_ & _ & ? & _). Qed.

Lemma init_route s :
  href (init s) = href s ∧ isCurrentlyEditPage (init s) = checkIsEditPage s.
Proof.
  unfold init. cbv zeta.
  change (isCurrentlyEditPage (with_isCurrentlyEditPage _ s))
    with (checkIsEditPage s).
  destruct (checkIsEditPage s) eqn:E; simpl; [done|].
  set (s1 := with_isCurrentlyEditPage false s).
  by destruct (initializeAllCodeBlocks_same_control s1) as [-> -> _ _ _ _].
Qed.

(** ** Route gating between navigations *)

Lemma route_event_sets_flag e s :
  ¬ quiet e →
  isCurrentlyEditPage (step e s) = checkIsEditPage (step e s).
Proof.
  intros He. destruct e; simpl; try (by destruct He).
  - rewrite onRouteChange_isCurrentlyEditPage. unfold checkIsEditPage.
    by rewrite onRouteChange_href.
  - rewrite onRouteChange_isCurrentlyEditPage. unfold checkIsEditPage.
    by rewrite onRouteChange_href.
  - destruct (init_route s) as [Hh Hp]. unfold checkIsEditPage in *.
    by rewrite Hh, Hp.
Qed.

(** C3, amended.  The route mode is the flag that [init] and every
    intercepted navigation (pushState, back / forward) recompute from the
    URL.  From such an event that ends on a URL containing the marker,
    and through any later events up to the next one (observer callbacks,
    clicks, frames, new measurements, URL changes that are not
    intercepted), the flag stays set, and the full scan, the size-change
    reaction and the structural-change reaction return the state they
    were given, whatever entries or mutation records they are fed: the
    page, the tracked set, the trace of observer calls and the frame queue
    are all unchanged. *)
Theorem disabled_route_gates_reactions e s es :
  ¬ quiet e →
  checkIsEditPage (step e s) = true →
  Forall quiet es →
  let s' := run es (step e s) in
  isCurrentlyEditPage s' = true
  ∧ initializeAllCodeBlocks s' = s'
  ∧ (∀ entries, resizeCallback entries s' = s')
  ∧ (∀ mutations, mutationCallback mutations s' = s').
Proof.
  intros He Hurl Hes s'.
  assert (isCurrentlyEditPage s' = true) as Hp.
  { unfold s'. rewrite (ou_edit _ _ (run_quiet_untouched es _ Hes)).
    by rewrite route_event_sets_flag. }
  split; [done|]. by apply flag_gates_reactions.
Qed.

(** * The theorems at work on a sample page *)

(** Editor 4 got button 9, editor 7 button 10, the nested editor 8
    button 11; the short editor 6 got none. *)
Example started_document :
  document (doc started)
  = T 0 [T 1 [T 2 [T 3 [T 4 [T 5 []; T 9 []]; T 6 []]];
              T 7 [T 8 [T 11 []]; T 10 []]]].
Proof. vm_compute. reflexivity. Qed.

Lemma tall_editor_collapsed_witness :
  get_id (doc (initializeCodeBlock 4 sample_state)) 4 = "collapsed"
  ∧ get_height (doc (initializeCodeBlock 4 sample_state)) 4 = "400px".
Proof.
  destruct (tall_editor_collapsed sample_state 4)
    as (b & _ & _ & _ & Hid & _ & Hh & _).
  - vm_compute. reflexivity.
  - eexists. vm_compute. reflexivity.
  - apply not_elem_of_empty.
  - vm_compute. reflexivity.
  - vm_compute. reflexivity.
  - exact (conj Hid Hh).
Defined.

Lemma toggle_round_trip_witness :
  get_height (doc (run [Click 9; AnimationFrame] started)) 4
  = full_height (doc started) 4
  ∧ get_height
      (doc (run [Click 9; AnimationFrame]
              (run [Click 9; AnimationFrame] started))) 4 = "400px".
Proof.
  destruct (toggle_round_trip started 4 9) as [(_ & _ & H1) (_ & _ & H2 & _)].
  - vm_compute. reflexivity.
  - vm_compute. reflexivity.
  - vm_compute. reflexivity.
  - vm_compute. reflexivity.
  - exact (conj H1 H2).
Defined.

(** The listener reads the marker when the click arrives, the closure
    writes it at the next frame: two clicks that reach the listener before
    one frame both expand. *)
Example two_clicks_before_one_frame :
  get_id (doc (run [Click 9; Click 9; AnimationFrame] started)) 4 = "expanded".
Proof. vm_compute. reflexivity. Qed.

(** A click whose target is not an element (here the Document node) makes
    the listener throw. *)
Example click_on_document_throws : clickListener 0 started = TypeError.
Proof. vm_compute. reflexivity. Qed.

Lemma disabled_route_gates_reactions_witness :
  resizeCallback [6] to_edit_page = to_edit_page
  ∧ mutationCallback [Mutation [2; 7]] to_edit_page = to_edit_page.
Proof.
  destruct (disabled_route_gates_reactions
              (PushState "https://chat.example/admin/functions") started
              [Layout 6 650; ReplaceState "https://chat.example/c/7";
               Click 9; AnimationFrame])
    as (_ & _ & H2 & H3).
  - intros [].
  - vm_compute. reflexivity.
  - repeat constructor.
  - exact (conj (H2 _) (H3 _)).
Defined.

(** C3 as worded fails: after [history.replaceState] to a URL with the
    marker the flag is still clear, and the size-change reaction gives the
    grown editor 6 its button. *)
Lemma url_does_not_gate_reactions : ¬ url_gates_reactions.
Proof.
  intros H.
  destruct (H "https://chat.example/c/42" sample_page
              [DOMContentLoaded; Layout 6 650;
               ReplaceState "https://chat.example/admin/functions"])
    as (_ & Hr & _).
  - vm_compute. reflexivity.
  - specialize (Hr [6]).
    apply (f_equal (λ s, get_id (doc s) 6)) in Hr.
    vm_compute in Hr. discriminate.
Qed.

(** C1 as worded fails: the nested editor 8 was initialized before its
    ancestor 7, so 7 already has a toggle button among its descendants and
    is tracked but neither marked nor given a button or a height. *)
Lemma nested_button_blocks_collapse : ¬ every_tall_editor_collapsed.
Proof.
  intros H. destruct (H nested_first 7) as (_ & Hid & _).
  - vm_compute. reflexivity.
  - eexists. vm_compute. reflexivity.
  - apply (bool_decide_eq_false_1 (7 ∈ observedCodeBlocks nested_first)).
    vm_compute. reflexivity.
  - vm_compute. reflexivity.
  - vm_compute in Hid. discriminate.
Qed.

Lemma short_editor_left_alone_witness :
  child_ids (doc (initializeAllCodeBlocks sample_state)) 6
  = child_ids (doc sample_state) 6
  ∧ get_height (doc (initializeAllCodeBlocks sample_state)) 6
    = get_height (doc sample_state) 6.
Proof.
  destruct (short_editor_left_alone sample_state 6) as (_ & Hc & _ & Hh).
  - vm_compute. apply list_elem_of_further, list_elem_of_here.
  - vm_compute. discriminate.
  - exact (conj Hc Hh).
Defined.

(** C6 as worded fails: editor 8 is nested inside editor 7; when 7 is the
    added node, the reaction initializes 7 and does not look inside it. *)
Lemma nested_editor_not_initialized : ¬ every_added_editor_initialized.
Proof.
  intros H.
  destruct (H sample_state [Mutation [7]] (Mutation [7]) 7 8) as [Hin _].
  - vm_compute. reflexivity.
  - apply list_elem_of_here.
  - apply list_elem_of_here.
  - right. vm_compute. apply list_elem_of_here.
  - vm_compute. reflexivity.
  - apply not_elem_of_empty.
  - assert (bool_decide
              (8 ∈ observedCodeBlocks
                     (mutationCallback [Mutation [7]] sample_state)) = false)
      as Hout by (vm_compute; reflexivity).
    apply bool_decide_eq_false in Hout. exact (Hout Hin).
Qed.

Lemma toggle_button_never_removed_witness :
  let es := [Layout 4 120; Resize [4]; PushState "https://chat.example/functions";
             Click 9; AnimationFrame; Mutations [Mutation [4]];
             PopState "https://chat.example/c/42"; Click 9; AnimationFrame] in
  9 ∈ child_ids (doc (run es started)) 4
  ∧ updateCodeBlock 4 (run es started) = run es started.
Proof.
  intros es.
  destruct (toggle_button_never_removed es started 4 9) as (H1 & _ & _ & H2).
  - vm_compute. apply list_elem_of_further, list_elem_of_here.
  - vm_compute. reflexivity.
  - exact (conj H1 H2).
Defined.

Lemma route_change_idempotent_witness :
  navigate "https://chat.example/c/43"
    (navigate "https://chat.example/c/42" sample_state)
  = with_href "https://chat.example/c/43"
      (navigate "https://chat.example/c/42" sample_state).
Proof.
  destruct (route_change_idempotent sample_state "https://chat.example/c/42")
    as (_ & _ & H & _).
  - vm_compute. reflexivity.
  - vm_compute. reflexivity.
  - apply H. vm_compute. reflexivity.
Defined.

Lemma toggle_fallbacks_witness :
  (∃ s1, clickListener 10 started = Ok s1
         ∧ get_height (doc (animationFrame s1)) 7 = "auto")
  ∧ (∃ s1, clickListener 10 expanded7 = Ok s1
           ∧ get_height (doc (animationFrame s1)) 7 = "400px"
           ∧ trace (animationFrame s1) = trace expanded7).
Proof.
  split.
  - destruct (toggle_fallbacks started 7 10) as (s1 & Hok & Hexp & _).
    + vm_compute. reflexivity.
    + vm_compute. reflexivity.
    + vm_compute. reflexivity.
    + exists s1. split; [exact Hok|].
      apply Hexp; vm_compute; reflexivity.
  - destruct (toggle_fallbacks expanded7 7 10) as (s1 & Hok & _ & Hcol).
    + vm_compute. reflexivity.
    + vm_compute. reflexivity.
    + vm_compute. reflexivity.
    + exists s1. split; [exact Hok|].
      destruct Hcol as (Hh & _ & _ & Ht).
      * vm_compute. discriminate.
      * vm_compute. reflexivity.
      * exact (conj Hh Ht).
Defined.

(** * Invariants of whole runs *)

(** ** From the writes of the script to its events

    Every event is a composition of a few primitive writes.  A preorder on
    states that each primitive write respects is respected by every
    event. *)

Section respects.
Context (R : relation state) `{!PreOrder R}.

Hypothesis R_queue : ∀ q s, R s (with_frameQueue q s).
Hypothesis R_track : ∀ x s,
  x ∉ observedCodeBlocks s → matches (doc s) CM_EDITOR x = true →
  R s (emit (ResizeObserve x)
         (with_observedCodeBlocks ({[x]} ∪ observedCodeBlocks s) s)).
Hypothesis R_collapse : ∀ r s,
  matches (doc s) CM_EDITOR r = true →
  R s (with_doc (collapsed_page r (doc s)) s).
Hypothesis R_set_id : ∀ n v s,
  v = "collapsed" ∨ v = "expanded" → R s (with_doc (set_id n v (doc s)) s).
Hypothesis R_set_height : ∀ n v s, R s (with_doc (set_height n v (doc s)) s).
Hypothesis R_layout : ∀ n h s, R s (with_doc (set_scrollHeight n h (doc s)) s).
Hypothesis R_scroll : ∀ n s, R s (emit (ScrollIntoView n) s).

Lemma initializeCodeBlock_respects x s : R s (initializeCodeBlock x s).
Proof.
  unfold initializeCodeBlock. destruct (_ || _) eqn:G; [done|].
  apply orb_false_iff in G as [Hx%bool_decide_eq_false Hm%negb_false_iff].
  etrans; [by apply R_track|].
  rewrite updateCodeBlock_spec. destruct (_ && _); [|done].
  by apply R_collapse.
Qed.

Lemma resizeCallback_respects entries s : R s (resizeCallback entries s).
Proof.
  unfold resizeCallback. destruct (isCurrentlyEditPage s); [done|].
  apply (forEach_preorder R). intros r s0.
  destruct (matches _ _ _) eqn:Hm; [|done].
  rewrite updateCodeBlock_spec. destruct (_ && _); [|done].
  by apply R_collapse.
Qed.

Lemma initializeAllCodeBlocks_respects s : R s (initializeAllCodeBlocks s).
Proof.
  unfold initializeAllCodeBlocks. destruct (isCurrentlyEditPage s); [done|].
  apply (forEach_preorder R), initializeCodeBlock_respects.
Qed.

Lemma mutationCallback_respects ms s : R s (mutationCallback ms s).
Proof.
  unfold mutationCallback. destruct (isCurrentlyEditPage s); [done|].
  apply (forEach_preorder R). intros m s0.
  apply (forEach_preorder R). intros n s1. rewrite addedNode_targets.
  apply (forEach_preorder R), initializeCodeBlock_respects.
Qed.

Lemma clickListener_respects target s :
  R s (match clickListener target s with Ok s' => s' | TypeError => s end).
Proof.
  unfold clickListener. destruct (negb _); [done|].
  destruct (negb _); [done|]. destruct (closest _ _ _); [|done].
  apply R_queue.
Qed.

Lemma toggle_respects cb s : R s (toggle cb s).
Proof.
  assert (∀ r b h m, m = "collapsed" ∨ m = "expanded" →
    R s (with_doc (set_id b m (set_id r m (set_height r h (doc s)))) s)) as H.
  { intros r b h m Hm.
    etrans; [apply (R_set_height r h)|].
    etrans; [apply (R_set_id r m); exact Hm|].
    apply (R_set_id b m (with_doc (set_id r m (set_height r h (doc s))) s) Hm). }
  unfold toggle. destruct (cb_isCollapsed cb); [apply H; by right|].
  cbv zeta. destruct (_ ≫= _).
  - etrans; [apply H; by left | apply R_scroll].
  - apply H. by left.
Qed.

Lemma animationFrame_respects s : R s (animationFrame s).
Proof.
  unfold animationFrame. etrans; [apply (R_queue [])|].
  apply (forEach_preorder R), toggle_respects.
Qed.

Hypothesis R_href : ∀ u s, R s (with_href u s).

Lemma quiet_step_respects e s : quiet e → R s (step e s).
Proof.
  destruct e; simpl; [done..| | | | | | |]; intros _.
  - apply resizeCallback_respects.
  - apply mutationCallback_respects.
  - apply clickListener_respects.
  - apply animationFrame_respects.
  - apply R_layout.
  - apply R_href.
  - done.
Qed.

Lemma quiet_run_respects es s : Forall quiet es → R s (run es s).
Proof.
  intros Hes. revert s. induction Hes as [|e es He _ IH]; intros s; [done|].
  trans (step e s); [by apply quiet_step_respects | apply IH].
Qed.

Hypothesis R_edit : ∀ b s, R s (with_isCurrentlyEditPage b s).
Hypothesis R_connect : ∀ s,
  R s (with_mutationObserverActive true (emit MutationObserve s)).
Hypothesis R_disconnect : ∀ s,
  R s (with_mutationObserverActive false (emit MutationDisconnect s)).

Lemma onRouteChange_respects s : R s (onRouteChange s).
Proof.
  unfold onRouteChange. cbv zeta.
  etrans; [apply (R_edit (checkIsEditPage s))|].
  destruct (isCurrentlyEditPage _).
  - destruct (mutationObserverActive _); [apply R_disconnect | done].
  - etrans; [apply initializeAllCodeBlocks_respects|].
    destruct (mutationObserverActive _); [done | apply R_connect].
Qed.

Lemma init_respects s : R s (init s).
Proof.
  unfold init. cbv zeta.
  etrans; [apply (R_edit (checkIsEditPage s))|].
  destruct (negb _); [|done].
  etrans; [apply initializeAllCodeBlocks_respects | apply R_connect].
Qed.

Lemma step_respects e s : R s (step e s).
Proof.
  destruct e; try (by apply quiet_step_respects).
  - simpl. etrans; [apply (R_href url) | apply onRouteChange_respects].
  - simpl. etrans; [apply (R_href url) | apply onRouteChange_respects].
  - apply init_respects.
Qed.

Lemma run_respects es s : R s (run es s).
Proof. apply (forEach_preorder R), step_respects. Qed.

End respects.

(** ** The route mode *)

Lemma prefix_append sub s :
  String.prefix sub s = true ↔ ∃ post, s = sub +:+ post.
Proof.
  revert s. induction sub as [|a sub IH]; intros s.
  - split; [intros _; by exists s | by destruct s].
  - destruct s as [|b s]; simpl.
    + split; [done | by intros [post ?]].
    + destruct (Ascii.ascii_dec a b) as [->|Hne].
      * rewrite IH. split; intros [post E]; exists post.
        -- simpl. by rewrite E.
        -- simpl in E. by injection E.
      * split; [done|]. intros [post E]. simpl in E.
        injection E as E1 _. by destruct Hne.
Qed.

Lemma includes_substring sub s :
  includes sub s = true ↔ ∃ pre post, s = pre +:+ sub +:+ post.
Proof.
  induction s as [|a s IH].
  - change (includes sub "") with (String.prefix sub "" || false).
    rewrite orb_false_r, prefix_append. split.
    + intros [post E]. by exists "", post.
    + intros (pre & post & E). destruct pre; [by exists post|done].
  - change (includes sub (String a s))
      with (String.prefix sub (String a s) || includes sub s).
    rewrite orb_true_iff, prefix_append, IH. split.
    + intros [[post E]|(pre & post & E)].
      * by exists "", post.
      * exists (String a pre), post. simpl. by rewrite E.
    + intros ([|b pre] & post & E).
      * left. by exists post.
      * right. exists pre, post. simpl in E. by injection E.
Qed.

(** X1.  The page counts as the disabled page exactly when "/functions"
    occurs somewhere in the URL, wherever that is. *)
Theorem checkIsEditPage_substring s :
  checkIsEditPage s = true ↔ ∃ pre post, href s = pre +:+ "/functions" +:+ post.
Proof. apply includes_substring. Qed.

Global Instance route_kept_preorder : PreOrder route_kept.
Proof.
  split.
  - intros s. by split.
  - intros s1 s2 s3 [] []. split; congruence.
Qed.

Lemma quiet_step_route_kept e s :
  quiet e → ¬ bypasses e → route_kept s (step e s).
Proof.
  destruct e; simpl; intros Hq Hb; try done.
  - apply (resizeCallback_respects route_kept); intros; by split.
  - apply (mutationCallback_respects route_kept); intros; by split.
  - apply (clickListener_respects route_kept); intros; by split.
  - apply (animationFrame_respects route_kept); intros; by split.
Qed.

Lemma step_route_settled e s :
  ¬ bypasses e →
  isCurrentlyEditPage s = checkIsEditPage s →
  isCurrentlyEditPage (step e s) = checkIsEditPage (step e s).
Proof.
  intros Hb Hinv.
  assert (quiet e → isCurrentlyEditPage (step e s) = checkIsEditPage (step e s))
    as Hq.
  { intros He. destruct (quiet_step_route_kept e s He Hb) as [Hh Hp].
    unfold checkIsEditPage. by rewrite Hh, Hp. }
  destruct e; try (by apply Hq); simpl.
  - rewrite onRouteChange_isCurrentlyEditPage. unfold checkIsEditPage.
    by rewrite onRouteChange_href.
  - rewrite onRouteChange_isCurrentlyEditPage. unfold checkIsEditPage.
    by rewrite onRouteChange_href.
  - destruct (init_route s) as [Hh Hp]. unfold checkIsEditPage in *.
    by rewrite Hh, Hp.
Qed.

(** X2.  As long as the URL changes only through the intercepted
    [history.pushState] and back / forward navigation, the route flag says
    whether the current URL contains the marker, from the moment the script
    is loaded and through any events.  (A URL change that is not
    intercepted, such as [history.replaceState], leaves the flag as it
    was.) *)
Theorem route_flag_tracks_url url d es :
  Forall (λ e, ¬ bypasses e) es →
  let s := run es (loaded url d) in
  isCurrentlyEditPage s = includes EDIT_PAGE_IDENTIFIER (href s).
Proof.
  intros Hes. cbv zeta. fold (checkIsEditPage (run es (loaded url d))).
  assert (isCurrentlyEditPage (loaded url d) = checkIsEditPage (loaded url d))
    as Hinit by done.
  revert Hinit. generalize (loaded url d).
  induction Hes as [|e es He _ IH]; intros s Hinv; [done|].
  by apply (IH (step e s)), step_route_settled.
Qed.

(** ** The tracked set and the ResizeObserver *)

Lemma counted_same r s s' :
  observedCodeBlocks s' = observedCodeBlocks s →
  observes r (trace s') = observes r (trace s) →
  counted r s s'.
Proof.
  intros Ho Ht. split; [by rewrite Ho|].
  rewrite Ht, Ho, decide_False by tauto. lia.
Qed.

Lemma run_counted r es s : counted r s (run es s).
Proof.
  apply (run_respects (counted r)); try (intros; by apply counted_same).
  - intros x s0 Hx _. split; [simpl; set_solver|].
    change (trace (emit ?c ?s1)) with (c :: trace s0) at 1.
    change (observedCodeBlocks (emit ?c ?s1))
      with ({[x]} ∪ observedCodeBlocks s0).
    unfold observes.
    destruct (decide (x = r)) as [->|Hne].
    + rewrite count_occ_cons_eq by done.
      rewrite decide_True; [lia|].
      split; [apply elem_of_union_l, elem_of_singleton|]; done.
    + rewrite count_occ_cons_neq by congruence.
      rewrite decide_False; [lia|]. intros [Hin Hout].
      apply elem_of_union in Hin as [Hin%elem_of_singleton|]; [|done].
      by apply Hne.
Qed.

(** X3.  From the moment the script is loaded, through any events,
    [resizeObserver.observe] has been called exactly once for every
    tracked editor and never for anything else. *)
Theorem tracked_observed_exactly_once url d es r :
  let s := run es (loaded url d) in
  observes r (trace s) = if decide (r ∈ observedCodeBlocks s) then 1 else 0.
Proof.
  cbv zeta. destruct (run_counted r es (loaded url d)) as [_ E].
  rewrite E. simpl. unfold observes. simpl.
  destruct (decide (r ∈ observedCodeBlocks (run es (loaded url d)))).
  - rewrite decide_True; [done|]. split; [done | apply not_elem_of_empty].
  - rewrite decide_False; [done | tauto].
Qed.

Global Instance tracks_editors_preorder : PreOrder tracks_editors.
Proof.
  split.
  - intros s. split; [done | auto].
  - intros s1 s2 s3 [A12 N12] [A23 N23]. split; [by etrans|].
    intros r Hr. destruct (N23 r Hr) as [H2|]; [|by right].
    destruct (N12 r H2) as [|Hm]; [by left | right].
    eapply evolves_matches_mono; [apply A23 | done].
Qed.

Lemma tracks_editors_same s s' :
  advances s s' → observedCodeBlocks s' = observedCodeBlocks s →
  tracks_editors s s'.
Proof. intros Ha Ho. split; [done|]. intros r. rewrite Ho. auto. Qed.

(** X4.  Over any events, whatever has entered the tracked set is an
    element with class "cm-editor". *)
Theorem tracked_are_editors es s r :
  r ∈ observedCodeBlocks (run es s) →
  r ∈ observedCodeBlocks s ∨ matches (doc (run es s)) CM_EDITOR r = true.
Proof.
  revert r. apply te_new.
  apply (run_respects tracks_editors);
    try (intros; apply tracks_editors_same; [split|]; simpl; done).
  - intros x s0 Hx Hm. split; [split; simpl; [done | set_solver]|].
    intros r [->%elem_of_singleton|]%elem_of_union; auto.
  - intros r s0 _. apply tracks_editors_same; [|done].
    by apply advances_with_doc, evolves_collapsed_page.
  - intros n v s0 _. apply tracks_editors_same; [|done].
    by apply advances_with_doc, rtc_once, mutates_set_id.
  - intros n v s0. apply tracks_editors_same; [|done].
    by apply advances_with_doc, rtc_once, mutates_set_height.
  - intros n h s0. apply tracks_editors_same; [|done].
    by apply advances_with_doc, rtc_once, mutates_set_scrollHeight.
Qed.

(** ** Re-evaluation on a size change *)



(** The page right after a button has been attached to [r]. *)
Lemma collapsed_page_properties d r :
  matches d CM_EDITOR r = true →
  is_Some (lookup_sub d r) →
  querySelector d CODE_EXPAND_BTN r = None →
  let d' := collapsed_page r d in
  ∃ b,
    child_ids d' r = child_ids d r ++ [b]
    ∧ (∀ x, x ∈ querySelectorAll d' CODE_EXPAND_BTN r ↔ x = b)
    ∧ get_id d' r = "collapsed"
    ∧ get_id d' b = "collapsed"
    ∧ get_height d' r = "400px"
    ∧ closest d' CM_EDITOR b = Some r.
Proof.
  intros Hm [t Ht] Hq. cbv zeta.
  destruct (matches_is_Some _ _ _ Hm) as [p Hp].
  pose proof (nodes_collapsed_page _ _ _ Hp) as Hr'.
  unfold collapsed_page in *.
  set (d2 := set_height r _ (set_id r _ d)) in *.
  set (b := fresh_id d2). set (d' := appendChild_new r expandBtn d2) in *.
  assert (lookup_sub d2 r = Some t) as Ht2 by done.
  assert (r ≠ b) as Hrb by (by eapply lookup_sub_not_fresh).
  assert (∀ sel x, matches d2 sel x = matches d sel x) as Hm2.
  { intros sel x. unfold d2, set_height, set_id. by rewrite !matches_alter. }
  assert (matches d' CODE_EXPAND_BTN b = true) as Hb by apply matches_append_new.
  assert (child_ids d' r = child_ids d r ++ [b]) as Hc.
  { unfold d'. rewrite child_ids_append, Ht2, decide_True by done. done. }
  exists b. split_and!.
  - done.
  - intros x. split.
    + unfold querySelectorAll, d'. rewrite lookup_sub_append, Ht2 by done. simpl.
      intros [Hx Hin]%list_elem_of_filter.
      apply elem_of_descendants_graft in Hin as [Hin|]; [|done].
      fold d' in Hx. unfold d' in Hx.
      rewrite matches_append_old, Hm2 in Hx
        by (by eapply descendants_not_fresh).
      apply querySelector_None in Hq.
      unfold querySelectorAll in Hq. rewrite Ht in Hq.
      assert (x ∈ filter (λ x, matches d CODE_EXPAND_BTN x) (descendants t))
        as Hin' by (by apply list_elem_of_filter).
      rewrite Hq in Hin'. by apply elem_of_nil in Hin'.
    + intros ->. apply child_in_querySelectorAll; [|done].
      rewrite Hc. apply elem_of_app. right. by left.
  - unfold get_id. by rewrite Hr'.
  - unfold get_id, d'. simpl. by rewrite lookup_insert_eq.
  - unfold get_height. by rewrite Hr'.
  - apply closest_new_child; [by exists t|]. by rewrite Hm2.
Qed.


Global Instance only_page_preorder : PreOrder only_page.
Proof.
  split.
  - intros s. unfold only_page. by rewrite with_doc_doc.
  - intros s1 s2 s3 H12 H23. unfold only_page in *.
    rewrite H23 at 1. by rewrite H12 at 1.
Qed.

(** X6.  The size-change reaction changes nothing but the page: whatever
    entries it is given, the tracked set, the trace of observer calls, the
    flags and the frame queue are as before. *)
Theorem resize_changes_only_the_page entries s :
  resizeCallback entries s = with_doc (doc (resizeCallback entries s)) s.
Proof.
  change (only_page s (resizeCallback entries s)).
  unfold resizeCallback. destruct (isCurrentlyEditPage s); [reflexivity|].
  apply (forEach_preorder only_page). intros r s0.
  destruct (matches _ _ _); [|reflexivity].
  rewrite updateCodeBlock_spec. destruct (_ && _); [|reflexivity].
  by unfold only_page.
Qed.

(** ** More on the structural-change reaction *)

Lemma added_targets_match d n r :
  r ∈ added_targets d n → matches d CM_EDITOR r = true.
Proof.
  unfold added_targets. destruct (negb _); [by intros ?%elem_of_nil|].
  destruct (matches d CM_EDITOR n) eqn:E.
  - by intros ->%list_elem_of_singleton.
  - unfold querySelectorAll. destruct (lookup_sub d n); [|by intros ?%elem_of_nil].
    intros [Hm _]%list_elem_of_filter. by apply Is_true_true.
Qed.

Lemma batch_targets_match d ms r :
  r ∈ batch_targets d ms → matches d CM_EDITOR r = true.
Proof.
  intros (m & (n & Hr & _)%list_elem_of_bind & _)%list_elem_of_bind.
  by eapply added_targets_match.
Qed.

Lemma evolves_batch_targets d d' ms :
  evolves d d' → batch_targets d' ms = batch_targets d ms.
Proof.
  intros H. unfold batch_targets.
  apply list_bind_ext; [|done]. intros m.
  apply list_bind_ext; [|done]. intros n. by apply evolves_added_targets.
Qed.

Lemma mutationCallback_settled ms s :
  (∀ r, r ∈ batch_targets (doc s) ms → r ∈ observedCodeBlocks s) →
  mutationCallback ms s = s.
Proof.
  intros H. destruct (isCurrentlyEditPage s) eqn:Hp.
  { unfold mutationCallback. by rewrite Hp. }
  rewrite mutationCallback_targets by done.
  apply forEach_fixed. intros r Hr.
  by apply initializeCodeBlock_observed_noop, H.
Qed.

(** X7.  The structural-change reaction is idempotent: fed the same batch
    of mutation records a second time, it changes nothing. *)
Theorem mutation_callback_idempotent ms s :
  mutationCallback ms (mutationCallback ms s) = mutationCallback ms s.
Proof.
  destruct (isCurrentlyEditPage s) eqn:Hp.
  { unfold mutationCallback. by rewrite Hp, Hp. }
  apply mutationCallback_settled. intros r.
  rewrite (evolves_batch_targets (doc s)) by apply mutationCallback_advances.
  intros Hr. rewrite mutationCallback_targets by done.
  apply forEach_initializeCodeBlock_observed; [done|].
  by eapply batch_targets_match.
Qed.

Lemma find_sub_is_Some n t : n ∈ preorder t → is_Some (find_sub n t).
Proof.
  induction t as [x ks IH] using tree_forall_ind. simpl.
  destruct (decide (x = n)); [eauto|].
  intros [|(k & Hn & Hk)%list_elem_of_bind]%elem_of_cons; [congruence|].
  rewrite Forall_forall in IH.
  eapply first_some_is_Some; [exact Hk | by apply IH].
Qed.

Lemma descendants_preorder t x : x ∈ descendants t → x ∈ preorder t.
Proof. destruct t. by right. Qed.

Lemma find_sub_descendants n t t' :
  find_sub n t = Some t' → descendants t' ⊆ descendants t.
Proof.
  destruct t as [x ks]. simpl. destruct (decide (x = n)).
  - by intros [= <-].
  - intros (k & Hk & E)%first_some_Some y Hy.
    apply list_elem_of_bind. exists k. split; [|done].
    apply (find_sub_preorder _ _ _ E), descendants_preorder, Hy.
Qed.

Lemma added_targets_in_document d n r :
  n ∈ descendants (document d) →
  r ∈ added_targets d n →
  r ∈ document_querySelectorAll d CM_EDITOR.
Proof.
  intros Hn Hr. pose proof (added_targets_match _ _ _ Hr) as Hm.
  apply list_elem_of_filter. split; [by rewrite Hm|].
  revert Hr. unfold added_targets. destruct (negb _); [by intros ?%elem_of_nil|].
  destruct (matches d CM_EDITOR n).
  { by intros ->%list_elem_of_singleton. }
  unfold querySelectorAll, lookup_sub, forest. simpl.
  destruct (find_sub_is_Some n (document d)) as [t Ht].
  { by apply descendants_preorder. }
  rewrite Ht. intros [_ Hr]%list_elem_of_filter.
  by apply (find_sub_descendants _ _ _ Ht).
Qed.

(** X8.  After a full scan, the structural-change reaction has nothing
    left to do for nodes that are in the document: a batch of mutation
    records that lists only such nodes changes nothing. *)
Theorem scan_subsumes_mutations s ms :
  isCurrentlyEditPage s = false →
  let s' := initializeAllCodeBlocks s in
  (∀ m n, m ∈ ms → n ∈ addedNodes m → n ∈ descendants (document (doc s'))) →
  mutationCallback ms s' = s'.
Proof.
  intros Hp s' Hdoc. apply mutationCallback_settled. intros r Hr.
  apply list_elem_of_bind in Hr as (m & Hr & Hm).
  apply list_elem_of_bind in Hr as (n & Hr & Hn).
  apply initializeAllCodeBlocks_covers; [done|].
  eapply added_targets_in_document; [|exact Hr]. by eapply Hdoc.
Qed.

(** ** The animation frame *)

Lemma get_scrollHeight_set_id d n v x :
  get_scrollHeight (set_id n v d) x = get_scrollHeight d x.
Proof.
  unfold get_scrollHeight, set_id. simpl. rewrite lookup_alter.
  case_decide; [subst|done]. by destruct (nodes d !! x).
Qed.

Lemma get_scrollHeight_set_height d n v x :
  get_scrollHeight (set_height n v d) x = get_scrollHeight d x.
Proof.
  unfold get_scrollHeight, set_height. simpl. rewrite lookup_alter.
  case_decide; [subst|done]. by destruct (nodes d !! x).
Qed.

Global Instance shape_kept_preorder : PreOrder shape_kept.
Proof.
  split.
  - intros s. by split.
  - intros s1 s2 s3 [S12 H12 O12] [S23 H23 O23]. split.
    + by etrans.
    + intros n. by rewrite H23, H12.
    + congruence.
Qed.

Lemma toggled_shape_kept s r b h m :
  shape_kept s (with_doc (set_id b m (set_id r m (set_height r h (doc s)))) s).
Proof.
  split; simpl; [|intros n|done].
  - etrans; [apply same_shape_set_height|].
    etrans; [apply same_shape_set_id|]. apply same_shape_set_id.
  - by rewrite !get_scrollHeight_set_id, get_scrollHeight_set_height.
Qed.

Lemma toggle_shape_kept cb s : shape_kept s (toggle cb s).
Proof.
  unfold toggle. destruct (cb_isCollapsed cb); [apply toggled_shape_kept|].
  cbv zeta. destruct (_ ≫= _); [|apply toggled_shape_kept].
  etrans; [apply toggled_shape_kept|]. by split.
Qed.

Lemma animationFrame_shape_kept s : shape_kept s (animationFrame s).
Proof.
  unfold animationFrame. trans (with_frameQueue [] s); [by split|].
  apply (forEach_preorder shape_kept), toggle_shape_kept.
Qed.

Lemma animationFrame_frameQueue s : frameQueue (animationFrame s) = [].
Proof.
  unfold animationFrame.
  assert (∀ q s0, frameQueue (forEach toggle q s0) = frameQueue s0) as Hq.
  { intros q. induction q as [|cb q IH]; intros s0; [done|].
    by rewrite forEach_cons, IH, toggle_frameQueue. }
  by rewrite Hq.
Qed.

(** X9.  An animation frame rewrites [id] and [style.height] and nothing
    else: it adds and removes no node, changes no class, no measured
    height and not the tracked set, and it leaves the frame queue empty. *)
Theorem animationFrame_keeps_shape s :
  let s' := animationFrame s in
  forest (doc s') = forest (doc s)
  ∧ (∀ sel n, matches (doc s') sel n = matches (doc s) sel n)
  ∧ (∀ n, get_scrollHeight (doc s') n = get_scrollHeight (doc s) n)
  ∧ observedCodeBlocks s' = observedCodeBlocks s
  ∧ frameQueue s' = [].
Proof.
  cbv zeta. destruct (animationFrame_shape_kept s) as [(F & M & _) H O].
  split_and!; [done..|]. apply animationFrame_frameQueue.
Qed.

(** X10.  Every queued callback runs once: a second animation frame with
    no click in between changes nothing. *)
Theorem animationFrame_runs_callbacks_once s :
  animationFrame (animationFrame s) = animationFrame s.
Proof.
  pose proof (animationFrame_frameQueue s) as Hq.
  unfold animationFrame at 1. rewrite Hq. unfold forEach. simpl.
  destruct (animationFrame s). simpl in *. by subst.
Qed.

(** ** More on the toggle *)

Lemma same_shape_parentElement d d' n :
  same_shape d d' → parentElement d' n = parentElement d n.
Proof.
  intros (F & _ & E). unfold parentElement, ancestors_or_self, path.
  rewrite F. destruct (default _ _) as [|? [|p ?]]; [done..|]. by rewrite E.
Qed.

Lemma same_shape_toggled d r b h m :
  same_shape d (set_id b m (set_id r m (set_height r h d))).
Proof.
  etrans; [apply same_shape_set_height|].
  etrans; [apply same_shape_set_id|]. apply same_shape_set_id.
Qed.

Lemma toggle_collapse_with_container s r b c p :
  closest (doc s) MESSAGE_CONTAINER r = Some c →
  parentElement (doc s) c = Some p →
  toggle (Callback r b false) s
  = emit (ScrollIntoView p)
      (with_doc (set_id b "collapsed"
                   (set_id r "collapsed"
                      (set_height r (px COLLAPSED_HEIGHT) (doc s)))) s).
Proof.
  intros Hc Hp. unfold toggle. simpl.
  pose proof (same_shape_toggled (doc s) r b (px COLLAPSED_HEIGHT) "collapsed")
    as Hshape.
  rewrite (same_shape_closest (doc s)), Hc by done. simpl.
  by rewrite (same_shape_parentElement (doc s)), Hp by done.
Qed.

(** X11.  Collapsing an expanded editor that sits in a message container:
    one click and the following frame set the height to "400px", mark root
    and button "collapsed", and ask the parent element of the nearest
    ".relative.my-2" ancestor to scroll into view, once. *)
Theorem collapse_scrolls_message_into_view s r b c p :
  frameQueue s = [] →
  matches (doc s) CODE_EXPAND_BTN b = true →
  closest (doc s) CM_EDITOR b = Some r →
  get_id (doc s) r ≠ "collapsed" →
  closest (doc s) MESSAGE_CONTAINER r = Some c →
  parentElement (doc s) c = Some p →
  let s' := run [Click b; AnimationFrame] s in
  trace s' = ScrollIntoView p :: trace s
  ∧ get_height (doc s') r = "400px"
  ∧ get_id (doc s') r = "collapsed"
  ∧ get_id (doc s') b = "collapsed".
Proof.
  intros Hq Hb Hr Hid Hc Hp. cbv zeta.
  rewrite (click_then_frame s r b Hq Hb Hr).
  apply String.eqb_neq in Hid. rewrite Hid.
  rewrite (toggle_collapse_with_container s r b c p Hc Hp).
  destruct (toggled_page (doc s) r b (px COLLAPSED_HEIGHT) "collapsed")
    as (? & ? & ? & _).
  { by eapply matches_is_Some, closest_matches. }
  { by eapply matches_is_Some. }
  by split_and!.
Qed.

Lemma full_height_toggled d r b h m r' :
  full_height (set_id b m (set_id r m (set_height r h d))) r' = full_height d r'.
Proof.
  unfold full_height, querySelector.
  rewrite (same_shape_querySelectorAll d) by apply same_shape_toggled.
  destruct (head _); [|done].
  by rewrite !get_scrollHeight_set_id, get_scrollHeight_set_height.
Qed.

(** X12.  The listener reads the marker when the click arrives and the
    closure writes it at the next frame.  Two clicks on the button of a
    collapsed editor that arrive before one frame therefore both expand:
    after the frame the editor is expanded, not collapsed again. *)
Theorem two_clicks_in_one_frame_expand s r b :
  frameQueue s = [] →
  matches (doc s) CODE_EXPAND_BTN b = true →
  closest (doc s) CM_EDITOR b = Some r →
  get_id (doc s) r = "collapsed" →
  let s' := run [Click b; Click b; AnimationFrame] s in
  get_id (doc s') r = "expanded"
  ∧ get_id (doc s') b = "expanded"
  ∧ get_height (doc s') r = full_height (doc s) r
  ∧ frameQueue s' = [].
Proof.
  intros Hq Hb Hr Hid. cbv zeta.
  pose proof (matches_is_Some _ _ _ Hb) as HSb.
  pose proof (matches_is_Some _ _ _ (closest_matches _ _ _ _ Hr)) as HSr.
  set (cb := Callback r b true).
  assert (run [Click b; Click b; AnimationFrame] s = toggle cb (toggle cb s))
    as ->.
  { set (s1 := with_frameQueue [cb] s).
    assert (clickListener b s = Ok s1) as H1.
    { by rewrite (clickListener_button s r b Hb Hr), Hid, Hq. }
    assert (clickListener b s1 = Ok (with_frameQueue [cb; cb] s)) as H2.
    { rewrite (clickListener_button s1 r b Hb Hr).
      change (get_id (doc s1) r) with (get_id (doc s) r). by rewrite Hid. }
    unfold run, forEach. simpl. rewrite H1, H2.
    unfold animationFrame, forEach. simpl.
    by rewrite with_frameQueue_reset. }
  unfold cb. rewrite (toggle_expand s), (toggle_expand (with_doc _ s)).
  simpl doc.
  rewrite full_height_toggled.
  set (d1 := set_id b "expanded" (set_id r "expanded" (set_height r _ (doc s)))).
  destruct (toggled_page d1 r b (full_height (doc s) r) "expanded")
    as (? & ? & ? & _).
  { unfold d1. by rewrite !nodes_set_id_is_Some, nodes_set_height_is_Some. }
  { unfold d1. by rewrite !nodes_set_id_is_Some, nodes_set_height_is_Some. }
  by split_and!.
Qed.

(** ** Start-up and navigation *)

(** X13.  Right after start-up or a navigation that ends off the disabled
    page, the observer-active flag is set and every element with class
    "cm-editor" in the document is tracked. *)
Theorem settled_after_route_event e s :
  ¬ quiet e →
  let s' := step e s in
  checkIsEditPage s' = false →
  mutationObserverActive s' = true
  ∧ (∀ r, r ∈ document_querySelectorAll (doc s') CM_EDITOR →
          r ∈ observedCodeBlocks s').
Proof.
  intros He. cbv zeta.
  assert (∀ s0, let s' := onRouteChange s0 in
    checkIsEditPage s' = false →
    mutationObserverActive s' = true
    ∧ (∀ r, r ∈ document_querySelectorAll (doc s') CM_EDITOR →
            r ∈ observedCodeBlocks s')) as Hnav.
  { intros s0. cbv zeta.
    destruct (onRouteChange_result s0) as (Ha & Hp & Hh & Hcov).
    unfold checkIsEditPage in *. rewrite Hh, <-Hp, Ha.
    intros E. rewrite E. auto. }
  destruct e; simpl; [apply Hnav | apply Hnav | | by destruct He..].
  destruct (init_route s) as [Hh Hp].
  unfold checkIsEditPage at 1. rewrite Hh. fold (checkIsEditPage s).
  intros E. unfold init. cbv zeta.
  change (isCurrentlyEditPage (with_isCurrentlyEditPage _ s))
    with (checkIsEditPage s).
  rewrite E. simpl. split; [done|].
  intros r.
  by apply (initializeAllCodeBlocks_covers (with_isCurrentlyEditPage false s) r).
Qed.

(** X14.  [init] does not consult the observer-active flag.  Run off the
    disabled page in a state where the observer is already attached (a
    navigation was handled before DOMContentLoaded), it calls [observe]
    again with no [disconnect] in between. *)
Theorem init_attaches_unconditionally s :
  checkIsEditPage s = false →
  observer_attached (trace s) = true →
  (∃ t, trace (init s) = MutationObserve :: t ∧ observer_attached t = true)
  ∧ well_bracketed (trace (init s)) = false.
Proof.
  intros Hp Ha. unfold init. cbv zeta.
  change (isCurrentlyEditPage (with_isCurrentlyEditPage _ s))
    with (checkIsEditPage s).
  rewrite Hp. simpl.
  set (s1 := with_isCurrentlyEditPage false s).
  destruct (initializeAllCodeBlocks_same_control s1) as [_ _ _ _ Hatt _].
  change (trace s1) with (trace s) in Hatt. rewrite Ha in Hatt.
  split; [eauto|]. by rewrite Hatt.
Qed.

(** X15.  A visit to the disabled page and back.  From a state reached by
    a navigation off the disabled page, navigating to the disabled page
    and then off it again disconnects and re-attaches the observer and
    changes nothing else but the URL: no editor is initialized again, the
    page and the tracked set are as before. *)
Theorem edit_page_round_trip s u0 ue u1 :
  includes EDIT_PAGE_IDENTIFIER u0 = false →
  includes EDIT_PAGE_IDENTIFIER ue = true →
  includes EDIT_PAGE_IDENTIFIER u1 = false →
  let s' := navigate u0 s in
  navigate u1 (navigate ue s')
  = with_trace (MutationObserve :: MutationDisconnect :: trace s')
      (with_href u1 s').
Proof.
  intros H0 He H1 s'.
  destruct (onRouteChange_result (with_href u0 s)) as (Ha & Hp & _ & Hcov).
  fold (navigate u0 s) in Ha, Hp, Hcov. fold s' in Ha, Hp, Hcov.
  unfold checkIsEditPage in Hp. simpl in Hp. rewrite H0 in Hp.
  rewrite Hp in Ha. specialize (Hcov Hp). clearbody s'.
  destruct s' as [h e a o d t q]. simpl in *. subst e a.
  unfold navigate, onRouteChange, checkIsEditPage. simpl.
  rewrite He. simpl. rewrite H1. simpl.
  rewrite initializeAllCodeBlocks_fixed by exact Hcov. done.
Qed.

(** ** What no event does *)

Global Instance nodes_kept_preorder : PreOrder nodes_kept.
Proof.
  split.
  - intros d n. destruct (nodes d !! n) eqn:E; eauto.
  - intros d1 d2 d3 H12 H23 n. specialize (H12 n). specialize (H23 n).
    destruct (nodes d1 !! n) as [p0|].
    + destruct H12 as (p & E & Hty & Hcl). rewrite E in H23.
      destruct H23 as (p' & E' & Hty' & Hcl'). exists p'.
      split_and!; congruence.
    + destruct H12 as [E|(p & E & Hty & Hcl)]; rewrite E in H23; [done|].
      destruct H23 as (p' & E' & Hty' & Hcl'). right. exists p'.
      split_and!; congruence.
Qed.

Lemma mutates_nodes_kept d d' : mutates d d' → nodes_kept d d'.
Proof.
  destruct 1 as [m f d Hty Hcl | r d]; intros n; simpl.
  - rewrite lookup_alter. case_decide; [subst m|].
    + destruct (nodes d !! n) as [p0|]; simpl; eauto.
    + destruct (nodes d !! n) as [p0|]; eauto.
  - destruct (decide (n = fresh_id d)) as [->|Hn].
    + rewrite fresh_id_nodes, lookup_insert_eq. right. by exists expandBtn.
    + rewrite lookup_insert_ne by done.
      destruct (nodes d !! n) as [p0|]; eauto.
Qed.

Lemma filter_all {A} (P : A → Prop) `{!∀ x, Decision (P x)} (l : list A) :
  Forall P l → filter P l = l.
Proof.
  induction 1 as [|x l Hx _ IH]; [done|].
  by rewrite filter_cons_True, IH.
Qed.

Lemma node_ids_forest d t n : t ∈ forest d → n ∈ preorder t → n ∈ node_ids d.
Proof.
  intros Ht Hn. unfold node_ids.
  apply elem_of_union_r, elem_of_list_to_set, list_elem_of_bind. eauto.
Qed.

Lemma path_to_preorder n t p : path_to n t = Some p → n ∈ preorder t.
Proof.
  revert p. induction t as [m ks IH] using tree_forall_ind. intros p. simpl.
  destruct (decide (m = n)) as [->|]; [by left|].
  destruct (first_some (path_to n) ks) as [q|] eqn:E; [|done].
  intros _. apply first_some_Some in E as (k & Hk & E). right.
  apply list_elem_of_bind. exists k. rewrite Forall_forall in IH. eauto.
Qed.

Lemma path_node_ids d n p : path d n = Some p → n ∈ node_ids d.
Proof.
  intros (t & Ht & E)%first_some_Some.
  eapply node_ids_forest; [done|]. by eapply path_to_preorder.
Qed.

Lemma forest_order_refl d :
  Forall2 (λ t t', filter (λ n, n ∈ node_ids d) (preorder t') = preorder t)
          (forest d) (forest d).
Proof.
  apply Forall_Forall2_diag, Forall_forall. intros t Ht.
  apply filter_all, Forall_forall. intros n. by apply node_ids_forest.
Qed.

Global Instance trees_kept_preorder : PreOrder trees_kept.
Proof.
  split.
  - intros d. split_and!; [done | apply forest_order_refl | done | done].
  - intros d1 d2 d3 (Hi12 & Ho12 & Hp12 & Hc12) (Hi23 & Ho23 & Hp23 & Hc23).
    split_and!.
    + by etrans.
    + eapply Forall2_trans; [|exact Ho12|exact Ho23].
      intros t1 t2 t3 E12 E23. cbv beta in *.
      rewrite <- E12, <- E23, list_filter_filter.
      apply list_filter_iff. intros n. split; [|by intros []].
      intros Hn. split; [done|]. by apply Hi12.
    + eauto.
    + intros r. etrans; [apply Hc12 | apply Hc23].
Qed.

Lemma mutates_trees_kept d d' : mutates d d' → trees_kept d d'.
Proof.
  destruct 1 as [m f d Hty Hcl | r d].
  - split_and!.
    + unfold node_ids. simpl. by rewrite dom_alter_L.
    + exact (forest_order_refl d).
    + intros n p Hp. exact Hp.
    + intros r. change (child_ids d r `prefix_of` child_ids d r). done.
  - assert (Forall2 (λ t t', filter (λ n, n ∈ node_ids d) (preorder t')
                             = preorder t)
                    (forest d) (forest (appendChild_new r expandBtn d))) as Ho.
    { rewrite forest_append. apply Forall2_fmap_r, Forall_Forall2_diag.
      apply Forall_forall. intros t Ht.
      unfold compose. rewrite filter_preorder_graft by exact (is_fresh (node_ids d)).
      apply filter_all, Forall_forall. intros n. by apply node_ids_forest. }
    split_and!; [|exact Ho|..].
    + intros n. unfold node_ids at 1. rewrite elem_of_union, elem_of_list_to_set.
      intros [Hn|(t & Hn & Ht)%list_elem_of_bind].
      * unfold node_ids, appendChild_new. simpl.
        apply elem_of_union_l. rewrite dom_insert_L. by apply elem_of_union_r.
      * apply list_elem_of_lookup in Ht as [i Hi].
        destruct (Forall2_lookup_l _ _ _ _ _ Ho Hi) as (t' & Hi' & E).
        apply (node_ids_forest _ t'); [by eapply list_elem_of_lookup_2|].
        rewrite <- E in Hn. by apply list_elem_of_filter in Hn as [_ ?].
    + intros n p Hp. rewrite path_append; [done|].
      intros ->. by apply (is_fresh (node_ids d)), (path_node_ids _ _ p).
    + intros x. destruct (decide (x = fresh_id d)) as [->|Hx].
      * unfold child_ids at 1. rewrite lookup_sub_fresh. apply prefix_nil.
      * rewrite child_ids_append by done. unfold child_ids at 1.
        destruct (lookup_sub d x) eqn:E; [|apply prefix_nil].
        apply prefix_app_r. unfold child_ids. by rewrite E.
Qed.

(** X16.  Over any events, no node is removed: in the store every node
    stays, with its type and its classes, and every node that is new is an
    element whose only class is "code-expand-btn"; in the trees every
    identity stays in use, the document and each detached tree list their
    former nodes in their former order once the new nodes are left out,
    every node keeps its chain of ancestors, and the former children of a
    node stay its first children. *)
Theorem nodes_kept_over_runs es s :
  nodes_kept (doc s) (doc (run es s)) ∧ trees_kept (doc s) (doc (run es s)).
Proof.
  pose proof (adv_doc _ _ (run_advances es s)) as H.
  induction H as [|d1 d2 d3 H12 _ [IHn IHt]]; [by split|].
  split.
  - etrans; [by apply mutates_nodes_kept | exact IHn].
  - etrans; [by apply mutates_trees_kept | exact IHt].
Qed.

Lemma get_id_set_scrollHeight d n h x :
  get_id (set_scrollHeight n h d) x = get_id d x.
Proof.
  unfold get_id, set_scrollHeight. simpl. rewrite lookup_alter.
  case_decide; [subst|done]. by destruct (nodes d !! x).
Qed.

Global Instance marks_preorder : PreOrder marks.
Proof.
  split.
  - intros s n. by left.
  - intros s1 s2 s3 H12 H23 n.
    destruct (H23 n) as [->|]; [apply H12 | by right].
Qed.

Lemma get_id_collapsed_page d r n :
  matches d CM_EDITOR r = true →
  get_id (collapsed_page r d) n = get_id d n
  ∨ get_id (collapsed_page r d) n = "collapsed".
Proof.
  intros Hm. destruct (matches_is_Some _ _ _ Hm) as [p Hp].
  destruct (decide (n = r)) as [->|Hn].
  { right. unfold get_id. by rewrite (nodes_collapsed_page d r p Hp). }
  unfold collapsed_page.
  set (d2 := set_height r _ (set_id r _ d)).
  destruct (decide (n = fresh_id d2)) as [->|Hf].
  - right. unfold get_id. simpl. by rewrite lookup_insert_eq.
  - left. trans (get_id d2 n).
    + unfold get_id. simpl. by rewrite lookup_insert_ne.
    + unfold d2. rewrite get_id_set_height, get_id_set_id.
      by rewrite decide_False.
Qed.

(** X17.  Over any events, the [id] of a node is either what it was or one
    of the two markers "collapsed" and "expanded": the script writes no
    other [id], and it writes the marker over whatever [id] an editor
    had. *)
Theorem ids_are_kept_or_markers es s n :
  get_id (doc (run es s)) n = get_id (doc s) n
  ∨ get_id (doc (run es s)) n = "collapsed"
  ∨ get_id (doc (run es s)) n = "expanded".
Proof.
  revert n. change (marks s (run es s)).
  apply (run_respects marks); try (intros; intros ?; by left).
  - intros r s0 Hm n. simpl.
    destruct (get_id_collapsed_page (doc s0) r n Hm); auto.
  - intros x v s0 Hv n. simpl. rewrite get_id_set_id.
    case_decide; [subst x|by left].
    unfold get_id. destruct (nodes (doc s0) !! n); [|by left].
    right. destruct Hv as [->| ->]; auto.
  - intros x v s0 n. simpl. left. apply get_id_set_height.
  - intros x h s0 n. simpl. left. apply get_id_set_scrollHeight.
Qed.

(** ** More on the scan and on batches *)


(** X19.  Added nodes that are not elements (text, comments) are skipped:
    a batch made of such nodes only changes nothing. *)
Theorem mutation_callback_skips_non_elements ms s :
  (∀ m n, m ∈ ms → n ∈ addedNodes m → is_element (doc s) n = false) →
  mutationCallback ms s = s.
Proof.
  intros H. apply mutationCallback_settled. intros r Hr.
  apply list_elem_of_bind in Hr as (m & Hr & Hm).
  apply list_elem_of_bind in Hr as (n & Hr & Hn).
  unfold added_targets in Hr. rewrite (H m n Hm Hn) in Hr.
  by apply elem_of_nil in Hr.
Qed.

Lemma forEach_initializeCodeBlock_tracked l s r :
  r ∈ observedCodeBlocks (forEach initializeCodeBlock l s) →
  r ∈ observedCodeBlocks s ∨ r ∈ l.
Proof.
  revert s. induction l as [|x l IH]; intros s; [by left|].
  rewrite forEach_cons. intros [Hr|Hr]%IH; [|right; by right].
  revert Hr. unfold initializeCodeBlock. destruct (_ || _); [by left|].
  rewrite updateCodeBlock_observed. simpl.
  intros [->%elem_of_singleton|]%elem_of_union; [right; by left | by left].
Qed.


Lemma elem_of_preorder_graft p b t x :
  x ∈ preorder t → x ∈ preorder (graft p b t).
Proof.
  induction t as [n ks IH] using tree_forall_ind. simpl.
  intros [->|(k & Hx & Hk)%list_elem_of_bind]%elem_of_cons; [by left|].
  right. rewrite bind_app. apply elem_of_app. left.
  apply list_elem_of_bind. exists (graft p b k).
  rewrite Forall_forall in IH. split; [by apply IH|].
  by apply list_elem_of_fmap_2.
Qed.

Lemma elem_of_descendants_graft_mono p b t x :
  x ∈ descendants t → x ∈ descendants (graft p b t).
Proof.
  destruct t as [n ks]. unfold descendants. simpl.
  intros (k & Hx & Hk)%list_elem_of_bind.
  rewrite bind_app. apply elem_of_app. left.
  apply list_elem_of_bind. exists (graft p b k).
  split; [by apply elem_of_preorder_graft | by apply list_elem_of_fmap_2].
Qed.

Lemma mutates_querySelectorAll_mono d d' sel n x :
  mutates d d' →
  x ∈ querySelectorAll d sel n → x ∈ querySelectorAll d' sel n.
Proof.
  intros H. pose proof (mutates_matches_mono d d' sel x H) as Hm.
  destruct H as [m f d Hty Hcl | r d]; unfold querySelectorAll.
  - change (lookup_sub (with_nodes _ d) n) with (lookup_sub d n).
    destruct (lookup_sub d n); [|done].
    rewrite !list_elem_of_filter. intros [Hx ?]. split; [|done].
    apply Is_true_true, Hm. by apply Is_true_true.
  - destruct (lookup_sub d n) as [t|] eqn:E; [|by intros ?%elem_of_nil].
    rewrite lookup_sub_append, E by (by eapply lookup_sub_not_fresh). simpl.
    rewrite !list_elem_of_filter. intros [Hx ?]. split.
    + apply Is_true_true, Hm. by apply Is_true_true.
    + by apply elem_of_descendants_graft_mono.
Qed.

Lemma evolves_has_button d d' r :
  evolves d d' →
  querySelector d CODE_EXPAND_BTN r ≠ None →
  querySelector d' CODE_EXPAND_BTN r ≠ None.
Proof.
  intros Hev Hq Hq'. apply querySelector_None in Hq'.
  unfold querySelector in Hq.
  destruct (querySelectorAll d CODE_EXPAND_BTN r) as [|x l] eqn:E; [done|].
  assert (x ∈ querySelectorAll d' CODE_EXPAND_BTN r) as Hx.
  { assert (x ∈ querySelectorAll d CODE_EXPAND_BTN r) as Hx0
      by (rewrite E; left).
    clear E Hq Hq'. induction Hev as [|d1 d2 d3 H12 _ IH]; [done|].
    eapply IH, mutates_querySelectorAll_mono; done. }
  rewrite Hq' in Hx. by apply elem_of_nil in Hx.
Qed.

Lemma mutates_lookup_sub_is_Some d d' n :
  mutates d d' → is_Some (lookup_sub d n) → is_Some (lookup_sub d' n).
Proof.
  destruct 1 as [m f d Hty Hcl | r d]; [done|]. intros [t E].
  rewrite lookup_sub_append, E by (by eapply lookup_sub_not_fresh). by eexists.
Qed.

Lemma evolves_lookup_sub_is_Some d d' n :
  evolves d d' → is_Some (lookup_sub d n) → is_Some (lookup_sub d' n).
Proof. induction 1; eauto using mutates_lookup_sub_is_Some. Qed.

Lemma initializeCodeBlock_gives_button s r :
  matches (doc s) CM_EDITOR r = true →
  is_Some (lookup_sub (doc s) r) →
  r ∉ observedCodeBlocks s →
  (COLLAPSED_HEIGHT < get_scrollHeight (doc s) r)%Z →
  querySelector (doc (initializeCodeBlock r s)) CODE_EXPAND_BTN r ≠ None.
Proof.
  intros Hm Ht Ho Hh.
  destruct (querySelector (doc s) CODE_EXPAND_BTN r) as [x|] eqn:Hq.
  - eapply evolves_has_button; [apply initializeCodeBlock_advances|].
    by rewrite Hq.
  - rewrite (initializeCodeBlock_tall s r) by done.
    destruct (collapsed_page_properties (doc s) r Hm Ht Hq)
      as (b & _ & Hb & _).
    intros Hq'%querySelector_None.
    assert (b ∈ querySelectorAll (collapsed_page r (doc s)) CODE_EXPAND_BTN r)
      as Hin by (by apply Hb).
    rewrite Hq' in Hin. by apply elem_of_nil in Hin.
Qed.

Lemma forEach_initializeCodeBlock_gives_button l s r :
  r ∈ l →
  matches (doc s) CM_EDITOR r = true →
  is_Some (lookup_sub (doc s) r) →
  r ∉ observedCodeBlocks s →
  (COLLAPSED_HEIGHT < get_scrollHeight (doc s) r)%Z →
  querySelector (doc (forEach initializeCodeBlock l s)) CODE_EXPAND_BTN r ≠ None.
Proof.
  revert s. induction l as [|x l IH]; intros s Hr Hm Ht Ho Hh.
  { by apply elem_of_nil in Hr. }
  rewrite forEach_cons. destruct (decide (x = r)) as [->|Hne].
  - eapply evolves_has_button; [apply forEach_initializeCodeBlock_advances|].
    by apply initializeCodeBlock_gives_button.
  - apply elem_of_cons in Hr as [|Hr]; [congruence|].
    pose proof (initializeCodeBlock_advances x s) as [Hev Hobs].
    destruct (initializeCodeBlock_frame r x s) as [Hn _].
    { by eapply matches_is_Some. } { by left. }
    apply IH; [done | | | |].
    + by eapply evolves_matches_mono.
    + by eapply evolves_lookup_sub_is_Some.
    + intros Hin.
      apply (forEach_initializeCodeBlock_tracked [x] s r) in Hin
        as [|Hin%list_elem_of_singleton]; [done | by apply Hne].
    + unfold get_scrollHeight in *. by rewrite Hn.
Qed.



(** ** The round trip on the whole page *)

Lemma round_trip_nodes (m : gmap nat node) r b h :
  (∀ p, m !! r = Some p →
        elem_id p = "collapsed" ∧ style_height p = px COLLAPSED_HEIGHT) →
  (∀ p, m !! b = Some p → elem_id p = "collapsed") →
  alter (with_id "collapsed") b
    (alter (with_id "collapsed") r
       (alter (with_height (px COLLAPSED_HEIGHT)) r
          (alter (with_id "expanded") b
             (alter (with_id "expanded") r
                (alter (with_height h) r m))))) = m.
Proof.
  intros Hr Hb. apply map_eq. intros n.
  destruct (decide (r = n)) as [->|Hrn], (decide (b = n)) as [->|Hbn];
    repeat (rewrite lookup_alter_eq || rewrite lookup_alter_ne by done);
    [| | |done];
    destruct (m !! n) as [p|] eqn:E; simpl; [|done| |done| |done].
  - destruct (Hr p eq_refl) as [Hi Hh]. destruct p. simpl in *. by subst.
  - destruct (Hr p eq_refl) as [Hi Hh]. destruct p. simpl in *. by subst.
  - pose proof (Hb p eq_refl) as Hi. destruct p. simpl in *. by subst.
Qed.

(** X22.  The round trip restores the page.  For a collapsed editor as
    the script leaves it (root and button marked "collapsed", inline
    height "400px"), expanding and collapsing again, each click followed by
    its frame, gives back exactly the page there was. *)
Theorem toggle_round_trip_restores_page s r b :
  frameQueue s = [] →
  matches (doc s) CODE_EXPAND_BTN b = true →
  closest (doc s) CM_EDITOR b = Some r →
  get_id (doc s) r = "collapsed" →
  get_id (doc s) b = "collapsed" →
  get_height (doc s) r = "400px" →
  doc (run [Click b; AnimationFrame; Click b; AnimationFrame] s) = doc s.
Proof.
  intros Hq Hb Hr Hidr Hidb Hh.
  change (run [Click b; AnimationFrame; Click b; AnimationFrame] s)
    with (run [Click b; AnimationFrame] (run [Click b; AnimationFrame] s)).
  rewrite (click_then_frame s r b Hq Hb Hr), Hidr. simpl String.eqb.
  rewrite toggle_expand. set (s1 := with_doc _ s).
  pose proof (same_shape_toggled (doc s) r b (full_height (doc s) r) "expanded")
    as Hshape.
  assert (matches (doc s1) CODE_EXPAND_BTN b = true) as Hb1.
  { destruct Hshape as (_ & M & _). unfold s1. simpl. by rewrite M. }
  assert (closest (doc s1) CM_EDITOR b = Some r) as Hr1.
  { unfold s1. simpl. by rewrite (same_shape_closest (doc s)). }
  destruct (toggled_page (doc s) r b (full_height (doc s) r) "expanded")
    as (Hid1 & _ & _ & _).
  { by eapply matches_is_Some, closest_matches. }
  { by eapply matches_is_Some. }
  rewrite (click_then_frame s1 r b Hq Hb1 Hr1).
  change (get_id (doc s1) r) with
    (get_id (set_id b "expanded" (set_id r "expanded"
       (set_height r (full_height (doc s) r) (doc s)))) r).
  rewrite Hid1. simpl String.eqb. rewrite toggle_collapse_doc.
  unfold s1, set_id, set_height, with_nodes. simpl.
  rewrite round_trip_nodes; [by destruct (doc s)| |].
  - intros p Hp. unfold get_id, get_height in Hidr, Hh.
    rewrite Hp in Hidr, Hh. done.
  - intros p Hp. unfold get_id in Hidb. by rewrite Hp in Hidb.
Qed.

(** ** The click listener *)

(** X23.  The click listener throws exactly when the click target is not
    an element.  When it returns, it has changed neither the page nor the
    trace nor the tracked set: all it may have done is to queue one
    callback for the next animation frame. *)
Theorem click_listener_throws_or_queues target s :
  match clickListener target s with
  | TypeError => is_element (doc s) target = false
  | Ok s' =>
      is_element (doc s) target = true
      ∧ s' = with_frameQueue (frameQueue s') s
      ∧ (frameQueue s' = frameQueue s
         ∨ ∃ cb, frameQueue s' = frameQueue s ++ [cb] ∧ cb_button cb = target)
  end.
Proof.
  unfold clickListener. destruct (is_element (doc s) target); simpl; [|done].
  assert (s = with_frameQueue (frameQueue s) s) as Hs by (by destruct s).
  destruct (negb _); [by auto|].
  destruct (closest _ _ _); [|by auto].
  split_and!; [done..|]. right. by eexists.
Qed.

(** ** Added editors are initialized and evaluated *)

Lemma forEach_initializeCodeBlock_frame_tracked r l s :
  is_Some (nodes (doc s) !! r) →
  r ∈ observedCodeBlocks s →
  nodes (doc (forEach initializeCodeBlock l s)) !! r = nodes (doc s) !! r
  ∧ child_ids (doc (forEach initializeCodeBlock l s)) r = child_ids (doc s) r.
Proof.
  revert s. induction l as [|x l IH]; intros s Hr Ho; [done|].
  rewrite forEach_cons. destruct (decide (x = r)) as [->|Hne].
  { rewrite initializeCodeBlock_observed_noop by done. by apply IH. }
  destruct (initializeCodeBlock_frame r x s Hr) as [Hn Hc]; [by left|].
  destruct (IH (initializeCodeBlock x s)) as [Hn' Hc'].
  - by rewrite Hn.
  - by apply (adv_observed _ _ (initializeCodeBlock_advances x s)).
  - split; congruence.
Qed.

Lemma child_ids_collapsed_page_detached d r :
  is_Some (nodes d !! r) → lookup_sub d r = None →
  child_ids (collapsed_page r d) r = child_ids d r.
Proof.
  intros Hr Hl. unfold collapsed_page.
  set (d2 := set_height r _ (set_id r _ d)).
  assert (r ≠ fresh_id d2) as Hf.
  { intros E. pose proof (fresh_id_nodes d2) as Hn. rewrite <-E in Hn.
    unfold d2 in Hn. apply eq_None_not_Some in Hn. apply Hn.
    by rewrite nodes_set_height_is_Some, nodes_set_id_is_Some. }
  rewrite child_ids_append by done.
  change (lookup_sub d2 r) with (lookup_sub d r). rewrite Hl.
  unfold child_ids. by rewrite Hl.
Qed.

(** What one evaluation may attach to [r]: nothing, or one toggle
    button, together with the marker and the collapsed height. *)
Lemma initializeCodeBlock_attaches s r :
  matches (doc s) CM_EDITOR r = true →
  let s' := initializeCodeBlock r s in
  child_ids (doc s') r = child_ids (doc s) r
  ∨ ∃ b, child_ids (doc s') r = child_ids (doc s) r ++ [b]
         ∧ matches (doc s') CODE_EXPAND_BTN b = true
         ∧ get_id (doc s') r = "collapsed"
         ∧ get_height (doc s') r = "400px".
Proof.
  intros Hm. cbv zeta. unfold initializeCodeBlock.
  destruct (_ || _); [by left|].
  rewrite updateCodeBlock_spec. simpl.
  destruct (bool_decide _ && _) eqn:C; [|by left]. simpl.
  apply andb_true_iff in C as [Hq%bool_decide_eq_true _].
  destruct (lookup_sub (doc s) r) as [t|] eqn:Ht.
  - right.
    destruct (collapsed_page_properties (doc s) r Hm)
      as (b & Hc & Hb & Hi & _ & Hh & _); [by eexists | done |].
    exists b. split_and!; [done| |done..].
    assert (b ∈ querySelectorAll (collapsed_page r (doc s)) CODE_EXPAND_BTN r)
      as Hin by (by apply Hb).
    unfold querySelectorAll in Hin.
    destruct (lookup_sub (collapsed_page r (doc s)) r);
      [|by apply elem_of_nil in Hin].
    apply list_elem_of_filter in Hin as [Hin _]. by apply Is_true_true.
  - left. apply child_ids_collapsed_page_detached; [|done].
    by eapply matches_is_Some.
Qed.

Lemma forEach_initializeCodeBlock_attaches_once l s r :
  matches (doc s) CM_EDITOR r = true →
  r ∉ observedCodeBlocks s →
  let s' := forEach initializeCodeBlock l s in
  child_ids (doc s') r = child_ids (doc s) r
  ∨ ∃ b, child_ids (doc s') r = child_ids (doc s) r ++ [b]
         ∧ matches (doc s') CODE_EXPAND_BTN b = true
         ∧ get_id (doc s') r = "collapsed"
         ∧ get_height (doc s') r = "400px".
Proof.
  cbv zeta. revert s. induction l as [|x l IH]; intros s Hm Ho; [by left|].
  rewrite forEach_cons. pose proof (matches_is_Some _ _ _ Hm) as HS.
  destruct (decide (x = r)) as [->|Hne].
  - set (s1 := initializeCodeBlock r s).
    pose proof (initializeCodeBlock_advances r s) as [Hev _]. fold s1 in Hev.
    assert (is_Some (nodes (doc s1) !! r)) as HS1.
    { eapply matches_is_Some, evolves_matches_mono; done. }
    destruct (forEach_initializeCodeBlock_frame_tracked r l s1 HS1) as [Hn Hc].
    { by apply initializeCodeBlock_observed. }
    rewrite Hc. unfold get_id, get_height. rewrite Hn.
    destruct (initializeCodeBlock_attaches s r Hm) as [|(b & ? & Hb & ? & ?)];
      [by left|right].
    exists b. split_and!; [done| |done..].
    eapply evolves_matches_mono; [|exact Hb].
    apply forEach_initializeCodeBlock_advances.
  - destruct (initializeCodeBlock_frame r x s HS) as [_ Hc]; [by left|].
    rewrite <-Hc. apply IH.
    + eapply evolves_matches_mono; [|done]. apply initializeCodeBlock_advances.
    + intros Hin.
      apply (forEach_initializeCodeBlock_tracked [x] s r) in Hin
        as [|Hin%list_elem_of_singleton]; [done | by apply Hne].
Qed.

(** C6, amended.  While the route mode is not the disabled page, an editor
    root that has not been initialized yet and that a mutation record
    brings in, as the added node itself or as a descendant of an added
    element that is not an editor root, is initialized and evaluated by the
    structural-change reaction exactly once, however often it is listed in
    the batch.  Initialized: it is tracked afterwards and has been handed
    to the ResizeObserver once.  Evaluated: measuring at most 400, it is
    left exactly as it was; measuring more and being part of the page, it
    has a toggle button inside afterwards; and what has been attached to
    it is nothing or one toggle button, and then it is marked "collapsed"
    and 400px high. *)
Theorem added_editor_initialized_once s ms m node r :
  isCurrentlyEditPage s = false →
  m ∈ ms → node ∈ addedNodes m →
  r = node
  ∨ (is_element (doc s) node = true
     ∧ matches (doc s) CM_EDITOR node = false
     ∧ r ∈ querySelectorAll (doc s) CM_EDITOR node) →
  matches (doc s) CM_EDITOR r = true →
  r ∉ observedCodeBlocks s →
  let s' := mutationCallback ms s in
  (r ∈ observedCodeBlocks s'
   ∧ observes r (trace s') = S (observes r (trace s)))
  ∧ ((get_scrollHeight (doc s) r ≤ COLLAPSED_HEIGHT)%Z →
     nodes (doc s') !! r = nodes (doc s) !! r
     ∧ child_ids (doc s') r = child_ids (doc s) r)
  ∧ (is_Some (lookup_sub (doc s) r) →
     (COLLAPSED_HEIGHT < get_scrollHeight (doc s) r)%Z →
     querySelector (doc s') CODE_EXPAND_BTN r ≠ None)
  ∧ (child_ids (doc s') r = child_ids (doc s) r
     ∨ ∃ b, child_ids (doc s') r = child_ids (doc s) r ++ [b]
            ∧ matches (doc s') CODE_EXPAND_BTN b = true
            ∧ get_id (doc s') r = "collapsed"
            ∧ get_height (doc s') r = "400px").
Proof.
  intros Hp Hm Hnode Hr Hcm Ho. cbv zeta.
  rewrite mutationCallback_targets by done.
  assert (r ∈ batch_targets (doc s) ms) as Hin.
  { unfold batch_targets. apply list_elem_of_bind. exists m. split; [|done].
    apply list_elem_of_bind. exists node. split; [|done].
    unfold added_targets. destruct Hr as [->|(He & Hn & Hr)].
    - rewrite (matches_is_element _ _ _ Hcm), Hcm. by left.
    - by rewrite He, Hn. }
  split; [by apply forEach_initializeCodeBlock_once|]. split_and!.
  - intros Hh. apply forEach_initializeCodeBlock_frame; [|by right].
    by eapply matches_is_Some.
  - intros Ht Hh. by apply forEach_initializeCodeBlock_gives_button.
  - by apply forEach_initializeCodeBlock_attaches_once.
Qed.

(** Editor 4 sits three levels below the added element 2; it measures
    600 and gets its button. *)
Lemma added_editor_initialized_once_witness :
  4 ∈ observedCodeBlocks (mutationCallback [Mutation [2; 2]] sample_state)
  ∧ observes 4 (trace (mutationCallback [Mutation [2; 2]] sample_state))
    = S (observes 4 (trace sample_state))
  ∧ querySelector (doc (mutationCallback [Mutation [2; 2]] sample_state))
      CODE_EXPAND_BTN 4 ≠ None.
Proof.
  destruct (added_editor_initialized_once sample_state
              [Mutation [2; 2]] (Mutation [2; 2]) 2 4)
    as ((H1 & H2) & _ & H3 & _).
  - vm_compute. reflexivity.
  - apply list_elem_of_here.
  - apply list_elem_of_here.
  - right. split_and!.
    + vm_compute. reflexivity.
    + vm_compute. reflexivity.
    + vm_compute. apply list_elem_of_here.
  - vm_compute. reflexivity.
  - apply not_elem_of_empty.
  - split_and!; [exact H1 | exact H2 |].
    apply H3; [eexists|]; vm_compute; reflexivity.
Defined.

(** * The invariants at work on the sample page *)

(** Membership in a concrete list or set, decided by evaluation. *)
Ltac by_evaluation :=
  match goal with
  | |- ?P => apply (bool_decide_eq_true_1 P); vm_compute; reflexivity
  end.

Lemma tracked_are_editors_witness :
  matches (doc (run [DOMContentLoaded] sample_state)) CM_EDITOR 4 = true.
Proof.
  destruct (tracked_are_editors [DOMContentLoaded] sample_state 4) as [H|H].
  - by_evaluation.
  - by apply not_elem_of_empty in H.
  - exact H.
Defined.


Lemma scan_subsumes_mutations_witness :
  mutationCallback [Mutation [2; 7]] (initializeAllCodeBlocks sample_state)
  = initializeAllCodeBlocks sample_state.
Proof.
  apply (scan_subsumes_mutations sample_state [Mutation [2; 7]]).
  - vm_compute. reflexivity.
  - intros m n ->%list_elem_of_singleton Hn. simpl in Hn.
    apply elem_of_cons in Hn as [->|Hn]; [by_evaluation|].
    apply list_elem_of_singleton in Hn as ->. by_evaluation.
Defined.

Lemma collapse_scrolls_message_into_view_witness :
  trace (run [Click 9; AnimationFrame] expanded4)
  = ScrollIntoView 2 :: trace expanded4.
Proof.
  destruct (collapse_scrolls_message_into_view expanded4 4 9 3 2) as [H _].
  - vm_compute. reflexivity.
  - vm_compute. reflexivity.
  - vm_compute. reflexivity.
  - vm_compute. discriminate.
  - vm_compute. reflexivity.
  - vm_compute. reflexivity.
  - exact H.
Defined.

Lemma two_clicks_in_one_frame_expand_witness :
  get_id (doc (run [Click 9; Click 9; AnimationFrame] started)) 4 = "expanded".
Proof.
  destruct (two_clicks_in_one_frame_expand started 4 9) as [H _].
  - vm_compute. reflexivity.
  - vm_compute. reflexivity.
  - vm_compute. reflexivity.
  - vm_compute. reflexivity.
  - exact H.
Defined.

Lemma settled_after_route_event_witness :
  mutationObserverActive (step DOMContentLoaded sample_state) = true.
Proof.
  destruct (settled_after_route_event DOMContentLoaded sample_state) as [H _].
  - intros [].
  - vm_compute. reflexivity.
  - exact H.
Defined.

Lemma init_attaches_unconditionally_witness :
  well_bracketed (trace (init navigated_early)) = false.
Proof.
  destruct (init_attaches_unconditionally navigated_early) as [_ H].
  - vm_compute. reflexivity.
  - vm_compute. reflexivity.
  - exact H.
Defined.

Lemma edit_page_round_trip_witness :
  navigate "https://chat.example/c/43"
    (navigate "https://chat.example/admin/functions" navigated_early)
  = with_trace (MutationObserve :: MutationDisconnect :: trace navigated_early)
      (with_href "https://chat.example/c/43" navigated_early).
Proof.
  apply (edit_page_round_trip sample_state "https://chat.example/c/42").
  - vm_compute. reflexivity.
  - vm_compute. reflexivity.
  - vm_compute. reflexivity.
Defined.


(** Node 0 is the Document node; nothing has the identity 99. *)
Lemma mutation_callback_skips_non_elements_witness :
  mutationCallback [Mutation [0; 99]] sample_state = sample_state.
Proof.
  apply (mutation_callback_skips_non_elements [Mutation [0; 99]] sample_state).
  intros m n ->%list_elem_of_singleton Hn. simpl in Hn.
  apply elem_of_cons in Hn as [->|Hn]; [vm_compute; reflexivity|].
  apply list_elem_of_singleton in Hn as ->. vm_compute. reflexivity.
Defined.



Lemma toggle_round_trip_restores_page_witness :
  doc (run [Click 9; AnimationFrame; Click 9; AnimationFrame] started)
  = doc started.
Proof.
  apply (toggle_round_trip_restores_page started 4 9).
  - vm_compute. reflexivity.
  - vm_compute. reflexivity.
  - vm_compute. reflexivity.
  - vm_compute. reflexivity.
  - vm_compute. reflexivity.
  - vm_compute. reflexivity.
Defined.

Lemma route_flag_tracks_url_witness :
  let s := run [DOMContentLoaded;
                PushState "https://chat.example/admin/functions";
                Resize [4]; PushStateFails;
                PopState "https://chat.example/c/42"] sample_state in
  isCurrentlyEditPage s = includes EDIT_PAGE_IDENTIFIER (href s)
  ∧ isCurrentlyEditPage s = false.
Proof.
  split; [|vm_compute; reflexivity].
  apply (route_flag_tracks_url "https://chat.example/c/42" sample_page).
  repeat constructor; intros [].
Defined.
